(** * adafruit_minimqtt: a shallow embedding of the MQTT client

    The development follows [adafruit_minimqtt.py]: the Python values the
    module manipulates, the module-level buffers it shares between calls,
    the client object, the transport it talks to, and then each method as a
    computation in a small state-and-exception monad. The properties come
    after all the definitions.

    Conventions.
    - Python [int] is [Z]; a [bytes]/[bytearray] is a [list Z] of values in
      0..255; a [str] is the list of its Unicode code points.
    - The language semantics is the one the module runs on (CircuitPython):
      [bytes + str] concatenates the UTF-8 data of the string, [assert] is
      active, [int.to_bytes] and [struct.pack] refuse values that do not fit.
    - The transport is a stream: the broker's bytes arrive in order, a read
      returns at most what it asks for, and once the stream is used up every
      read times out and returns [b""].
    - A callback is foreign code: calling one is recorded, with its
      arguments, in the trace of the run.
    - The logger only formats text and is left out, as are
      [set_interface] and [getaddrinfo] of the socket module. *)

From Stdlib Require Import ZArith List String Ascii DecimalString Lia Bool.
From stdpp Require Import base list.
Import ListNotations.
Open Scope Z_scope.

(** ** Python values *)

Definition bytes := list Z.
Definition pystr := list Z.

(** Exceptions the module can raise, directly or through a builtin. *)
Inductive exn :=
| MMQTTException (msg : string)
| AssertionError
| IndexError
| KeyError (key : Z)
| OverflowError
| StructError
| TypeError
| ValueError
| AttributeError
| NotImplementedError
| UnicodeError
| RuntimeError
| OSError.

Definition is_MMQTTException (e : exn) : bool :=
  match e with MMQTTException _ => true | _ => false end.

Definition res (A : Type) := (exn + A)%type.

Definition bool_int (b : bool) : Z := if b then 1 else 0.

(** [len(x)] as a Python int. *)
Definition len {A} (l : list A) : Z := Z.of_nat (length l).

Definition is_byte (v : Z) : bool := (0 <=? v) && (v <=? 255).

(** [buf[i]] on a bytes object: IndexError out of range. *)
Definition getitem (buf : bytes) (i : nat) : res Z :=
  match buf !! i with
  | Some v => inr v
  | None => inl IndexError
  end.

(** [buf[i] = v] on a bytearray: IndexError out of range, ValueError when the
    value is not a byte. *)
Definition setitem (buf : bytes) (i : nat) (v : Z) : res bytes :=
  if negb (Nat.ltb i (length buf)) then inl IndexError
  else if negb (is_byte v) then inl ValueError
  else inr (<[i := v]> buf).

(** Big-endian digits of [n] in base 256, [k] of them. *)
Fixpoint be_digits (k : nat) (n : Z) : bytes :=
  match k with
  | O => []
  | S k' => be_digits k' (Z.shiftr n 8) ++ [Z.land n 255]
  end.

(** [n.to_bytes(k, 'big')]. *)
Definition to_bytes (n : Z) (k : nat) : res bytes :=
  if (n <? 0) || (2 ^ (8 * Z.of_nat k) <=? n) then inl OverflowError
  else inr (be_digits k n).

(** [struct.pack("!H", n)]. *)
Definition pack_H (n : Z) : res bytes :=
  if (n <? 0) || (65535 <? n) then inl StructError
  else inr (be_digits 2 n).

(** [struct.pack_into("!H", buf, off, n)]. *)
Definition pack_into_H (buf : bytes) (off : nat) (n : Z) : res bytes :=
  match pack_H n with
  | inl e => inl e
  | inr hl =>
      if Nat.ltb (length buf) (off + 2) then inl StructError
      else inr (take off buf ++ hl ++ drop (off + 2) buf)
  end.

(** *** UTF-8 *)

Definition utf8_encode_cp (c : Z) : option bytes :=
  if c <? 0 then None
  else if c <? 0x80 then Some [c]
  else if c <? 0x800 then
    Some [Z.lor 0xC0 (Z.shiftr c 6); Z.lor 0x80 (Z.land c 0x3F)]
  else if c <? 0x10000 then
    if (0xD800 <=? c) && (c <=? 0xDFFF) then None
    else Some [Z.lor 0xE0 (Z.shiftr c 12);
               Z.lor 0x80 (Z.land (Z.shiftr c 6) 0x3F);
               Z.lor 0x80 (Z.land c 0x3F)]
  else if c <? 0x110000 then
    Some [Z.lor 0xF0 (Z.shiftr c 18);
          Z.lor 0x80 (Z.land (Z.shiftr c 12) 0x3F);
          Z.lor 0x80 (Z.land (Z.shiftr c 6) 0x3F);
          Z.lor 0x80 (Z.land c 0x3F)]
  else None.

(** [s.encode('utf-8')]. *)
Fixpoint str_encode (s : pystr) : res bytes :=
  match s with
  | [] => inr []
  | c :: s' =>
      match utf8_encode_cp c, str_encode s' with
      | Some bs, inr r => inr (bs ++ r)
      | None, _ => inl UnicodeError
      | _, inl e => inl e
      end
  end.

Definition is_cont (b : Z) : bool := (0x80 <=? b) && (b <=? 0xBF).
Definition cont_bits (b : Z) : Z := Z.land b 0x3F.

(** [str(bs, 'utf-8')]: strict decoding (no overlong forms, no surrogates,
    nothing above U+10FFFF). *)
Fixpoint str_decode (bs : bytes) : res pystr :=
  match bs with
  | [] => inr []
  | b0 :: r0 =>
      if (0 <=? b0) && (b0 <? 0x80) then
        match str_decode r0 with inr s => inr (b0 :: s) | inl e => inl e end
      else if (0xC2 <=? b0) && (b0 <=? 0xDF) then
        match r0 with
        | b1 :: r1 =>
            if is_cont b1 then
              match str_decode r1 with
              | inr s => inr (Z.lor (Z.shiftl (Z.land b0 0x1F) 6) (cont_bits b1) :: s)
              | inl e => inl e
              end
            else inl UnicodeError
        | _ => inl UnicodeError
        end
      else if (0xE0 <=? b0) && (b0 <=? 0xEF) then
        match r0 with
        | b1 :: b2 :: r2 =>
            let c := Z.lor (Z.shiftl (Z.land b0 0x0F) 12)
                       (Z.lor (Z.shiftl (cont_bits b1) 6) (cont_bits b2)) in
            if is_cont b1 && is_cont b2 && (0x800 <=? c)
               && negb ((0xD800 <=? c) && (c <=? 0xDFFF)) then
              match str_decode r2 with
              | inr s => inr (c :: s)
              | inl e => inl e
              end
            else inl UnicodeError
        | _ => inl UnicodeError
        end
      else if (0xF0 <=? b0) && (b0 <=? 0xF4) then
        match r0 with
        | b1 :: b2 :: b3 :: r3 =>
            let c := Z.lor (Z.shiftl (Z.land b0 0x07) 18)
                       (Z.lor (Z.shiftl (cont_bits b1) 12)
                          (Z.lor (Z.shiftl (cont_bits b2) 6) (cont_bits b3))) in
            if is_cont b1 && is_cont b2 && is_cont b3
               && (0x10000 <=? c) && (c <? 0x110000) then
              match str_decode r3 with
              | inr s => inr (c :: s)
              | inl e => inl e
              end
            else inl UnicodeError
        | _ => inl UnicodeError
        end
      else inl UnicodeError
  end.

(** [str(n)] for an int, as code points. *)
Definition str_of_int (n : Z) : pystr :=
  let digits :=
    map (fun a => Z.of_nat (Ascii.nat_of_ascii a))
        (list_ascii_of_string
           (DecimalString.NilZero.string_of_uint (N.to_uint (Z.to_N (Z.abs n))))) in
  if n <? 0 then 45 :: digits else digits.

(** [s.encode('ascii')]. *)
Definition ascii_encode (s : pystr) : res bytes :=
  if forallb (fun c => (0 <=? c) && (c <? 128)) s then inr s
  else inl UnicodeError.

(** [x in s] for a character [x]. *)
Definition contains_char (x : Z) (s : pystr) : bool := existsb (Z.eqb x) s.

Fixpoint pystr_eqb (a b : pystr) : bool :=
  match a, b with
  | [], [] => true
  | x :: a', y :: b' => (x =? y) && pystr_eqb a' b'
  | _, _ => false
  end.

(** [t in l] on a list of strings. *)
Definition str_in (t : pystr) (l : list pystr) : bool := existsb (pystr_eqb t) l.

(** [l.remove(t)]: drops the first occurrence, ValueError when there is none. *)
Fixpoint list_remove (t : pystr) (l : list pystr) : res (list pystr) :=
  match l with
  | [] => inl ValueError
  | x :: l' =>
      if pystr_eqb t x then inr l'
      else match list_remove t l' with
           | inr r => inr (x :: r)
           | inl e => inl e
           end
  end.

(** ** Module constants and module-level buffers *)

Definition MQTT_MSG_MAX_SZ : Z := 268435455.
Definition MQTT_MSG_SZ_LIM : Z := 10000000.
Definition MQTT_TOPIC_LENGTH_LIMIT : Z := 65535.
Definition MQTT_TCP_PORT : Z := 1883.
Definition MQTT_TLS_PORT : Z := 8883.
Definition TCP_MODE : Z := 0.
Definition TLS_MODE : Z := 2.

Definition MQTT_PINGREQ : bytes := [0xc0; 0].
Definition MQTT_PINGRESP : Z := 0xd0.
Definition MQTT_SUB : bytes := [0x82].
Definition MQTT_UNSUB : bytes := [0xA2].
Definition MQTT_DISCONNECT : bytes := [0xe0; 0].

(** The three [bytearray] constants are module globals; the methods bind
    them to a local name and write through it, so what one call stores is
    what the next call finds. *)
Record globals := {
  MQTT_PUB : bytes;
  MQTT_CON : bytes;
  MQTT_CON_HEADER : bytes
}.

Definition globals0 : globals :=
  {| MQTT_PUB := [0x30; 0];
     MQTT_CON := [0x10; 0; 0];
     MQTT_CON_HEADER := [0x04; 77; 81; 84; 84; 0x04; 0x02; 0; 0] |}.

(** [CONNACK_ERRORS]: a dict with the five keys 1..5. *)
Definition CONNACK_ERRORS (k : Z) : option string :=
  if k =? 0x01 then Some "Connection Refused - Incorrect Protocol Version"%string
  else if k =? 0x02 then Some "Connection Refused - ID Rejected"%string
  else if k =? 0x03 then Some "Connection Refused - Server unavailable"%string
  else if k =? 0x04 then Some "Connection Refused - Incorrect username/password"%string
  else if k =? 0x05 then Some "Connection Refused - Unauthorized"%string
  else None.

(** [d[k]] on that dict. *)
Definition CONNACK_ERRORS_getitem (k : Z) : res string :=
  match CONNACK_ERRORS k with
  | Some s => inr s
  | None => inl (KeyError k)
  end.

(** ** The client object *)

(** Callbacks are foreign code: a slot is either [None] ([false]) or set, and
    a call through a set slot is recorded in the trace with its arguments. *)
Record MQTT := {
  _esp : bool;                       (* truth value of the interface object *)
  port : Z;
  server : pystr;
  _user : option pystr;
  _pass : pystr;
  _client_id : pystr;
  _is_connected : bool;
  _keep_alive : Z;
  _pid : Z;
  _subscribed_topics : list pystr;
  on_message : bool;
  on_connect : bool;
  on_disconnect : bool;
  on_publish : bool;
  on_subscribe : bool;
  on_unsubscribe : bool;
  _lw_qos : Z;
  _lw_topic : option pystr;
  _lw_msg : option pystr;
  _lw_retain : bool;
  _sock : bool                       (* has connect() bound the attribute? *)
}.

Definition set_is_connected (b : bool) (c : MQTT) : MQTT :=
  {| _esp := _esp c; port := port c; server := server c; _user := _user c;
     _pass := _pass c; _client_id := _client_id c; _is_connected := b;
     _keep_alive := _keep_alive c; _pid := _pid c;
     _subscribed_topics := _subscribed_topics c;
     on_message := on_message c; on_connect := on_connect c;
     on_disconnect := on_disconnect c; on_publish := on_publish c;
     on_subscribe := on_subscribe c; on_unsubscribe := on_unsubscribe c;
     _lw_qos := _lw_qos c; _lw_topic := _lw_topic c; _lw_msg := _lw_msg c;
     _lw_retain := _lw_retain c; _sock := _sock c |}.

Definition set_pid (p : Z) (c : MQTT) : MQTT :=
  {| _esp := _esp c; port := port c; server := server c; _user := _user c;
     _pass := _pass c; _client_id := _client_id c;
     _is_connected := _is_connected c;
     _keep_alive := _keep_alive c; _pid := p;
     _subscribed_topics := _subscribed_topics c;
     on_message := on_message c; on_connect := on_connect c;
     on_disconnect := on_disconnect c; on_publish := on_publish c;
     on_subscribe := on_subscribe c; on_unsubscribe := on_unsubscribe c;
     _lw_qos := _lw_qos c; _lw_topic := _lw_topic c; _lw_msg := _lw_msg c;
     _lw_retain := _lw_retain c; _sock := _sock c |}.

Definition set_subscribed_topics (l : list pystr) (c : MQTT) : MQTT :=
  {| _esp := _esp c; port := port c; server := server c; _user := _user c;
     _pass := _pass c; _client_id := _client_id c;
     _is_connected := _is_connected c;
     _keep_alive := _keep_alive c; _pid := _pid c;
     _subscribed_topics := l;
     on_message := on_message c; on_connect := on_connect c;
     on_disconnect := on_disconnect c; on_publish := on_publish c;
     on_subscribe := on_subscribe c; on_unsubscribe := on_unsubscribe c;
     _lw_qos := _lw_qos c; _lw_topic := _lw_topic c; _lw_msg := _lw_msg c;
     _lw_retain := _lw_retain c; _sock := _sock c |}.

Definition set_sock (b : bool) (c : MQTT) : MQTT :=
  {| _esp := _esp c; port := port c; server := server c; _user := _user c;
     _pass := _pass c; _client_id := _client_id c;
     _is_connected := _is_connected c;
     _keep_alive := _keep_alive c; _pid := _pid c;
     _subscribed_topics := _subscribed_topics c;
     on_message := on_message c; on_connect := on_connect c;
     on_disconnect := on_disconnect c; on_publish := on_publish c;
     on_subscribe := on_subscribe c; on_unsubscribe := on_unsubscribe c;
     _lw_qos := _lw_qos c; _lw_topic := _lw_topic c; _lw_msg := _lw_msg c;
     _lw_retain := _lw_retain c; _sock := b |}.

Definition set_last_will (q : Z) (t m : option pystr) (r : bool) (c : MQTT) : MQTT :=
  {| _esp := _esp c; port := port c; server := server c; _user := _user c;
     _pass := _pass c; _client_id := _client_id c;
     _is_connected := _is_connected c;
     _keep_alive := _keep_alive c; _pid := _pid c;
     _subscribed_topics := _subscribed_topics c;
     on_message := on_message c; on_connect := on_connect c;
     on_disconnect := on_disconnect c; on_publish := on_publish c;
     on_subscribe := on_subscribe c; on_unsubscribe := on_unsubscribe c;
     _lw_qos := q; _lw_topic := t; _lw_msg := m;
     _lw_retain := r; _sock := _sock c |}.

(** ** The transport and the trace *)

(** What the client does to the outside, in order: transport calls that
    leave the device and callback invocations with their arguments. *)
Inductive action :=
| SockConnect (mode : Z)
| SockWrite (bs : bytes)
| SockClose
| OnConnect (session_present rc : Z)
| OnDisconnect
| OnMessage (topic payload : pystr)
| OnPublish (pid : Z)
| OnSubscribe (granted : Z)
| OnUnsubscribe (topic : pystr) (pid : Z).

(** The bytes handed to [write], concatenated. *)
Definition written (tr : list action) : bytes :=
  flat_map (fun a => match a with SockWrite bs => bs | _ => [] end) tr.

(** One run of the program: the client, the module buffers, the bytes the
    broker delivers (in order; once they are used up every read times out and
    returns [b""]), how the transport answers [connect], and the trace. *)
Record machine := {
  self : MQTT;
  glob : globals;
  inbound : bytes;
  link : option exn;
  trace : list action
}.

Definition set_self (c : MQTT) (m : machine) : machine :=
  {| self := c; glob := glob m; inbound := inbound m; link := link m;
     trace := trace m |}.
Definition set_glob (g : globals) (m : machine) : machine :=
  {| self := self m; glob := g; inbound := inbound m; link := link m;
     trace := trace m |}.
Definition set_inbound (i : bytes) (m : machine) : machine :=
  {| self := self m; glob := glob m; inbound := i; link := link m;
     trace := trace m |}.
Definition emit (a : action) (m : machine) : machine :=
  {| self := self m; glob := glob m; inbound := inbound m; link := link m;
     trace := trace m ++ [a] |}.

(** ** The monad *)

(** A call returns, raises, never returns ([Blocked]: it spins on a silent
    transport), or the model's loop bound ran out ([OutOfFuel]). *)
Inductive outcome (A : Type) :=
| Ok (a : A)
| Raise (e : exn)
| Blocked
| OutOfFuel.
Arguments Ok {A} a.
Arguments Raise {A} e.
Arguments Blocked {A}.
Arguments OutOfFuel {A}.

Definition M (A : Type) := machine -> outcome A * machine.

Definition ret {A} (a : A) : M A := fun m => (Ok a, m).
Definition raise {A} (e : exn) : M A := fun m => (Raise e, m).
Definition bind {A B} (c : M A) (k : A -> M B) : M B := fun m =>
  match c m with
  | (Ok a, m') => k a m'
  | (Raise e, m') => (Raise e, m')
  | (Blocked, m') => (Blocked, m')
  | (OutOfFuel, m') => (OutOfFuel, m')
  end.

Notation "'let*' x ':=' c 'in' k" := (bind c (fun x => k))
  (at level 10, x pattern, c at level 100, k at level 200).
Notation "c '>>' k" := (bind c (fun _ => k))
  (at level 65, right associativity).

Definition lift {A} (r : res A) : M A :=
  match r with inr a => ret a | inl e => raise e end.
Definition assert (b : bool) : M unit :=
  if b then ret tt else raise AssertionError.
Definition when (b : bool) (c : M unit) : M unit := if b then c else ret tt.
Definition get_self : M MQTT := fun m => (Ok (self m), m).
Definition modify_self (f : MQTT -> MQTT) : M unit :=
  fun m => (Ok tt, set_self (f (self m)) m).
Definition get_glob : M globals := fun m => (Ok (glob m), m).
Definition put_glob (g : globals) : M unit := fun m => (Ok tt, set_glob g m).
Definition act (a : action) : M unit := fun m => (Ok tt, emit a m).

(** Call through a callback slot: [if self.on_x is not None: self.on_x(...)]. *)
Definition callback (slot : MQTT -> bool) (a : action) : M unit :=
  let* c := get_self in when (slot c) (act a).

(** [self._sock]: AttributeError until [connect] has bound it. *)
Definition the_sock : M unit :=
  let* c := get_self in if _sock c then ret tt else raise AttributeError.

(** [self._sock.write(bs)]. *)
Definition sock_write (bs : bytes) : M unit := the_sock >> act (SockWrite bs).

(** [self._sock.read(n)]: the next [n] bytes, fewer when the broker has sent
    fewer before the timeout. *)
Definition sock_read (n : Z) : M bytes :=
  the_sock >>
  fun m => let k := Z.to_nat n in
           (Ok (take k (inbound m)), set_inbound (drop k (inbound m)) m).

(** [self._sock.settimeout(t)] has no effect on what is modelled here. *)
Definition sock_settimeout : M unit := the_sock.

(** The module buffers, by name: a local such as [pkt = MQTT_PUB] is another
    name for the same object, so loads and stores go to the global. *)
Inductive buffer := PUB | CON | CON_HEADER.

Definition buf_get (b : buffer) (g : globals) : bytes :=
  match b with
  | PUB => MQTT_PUB g
  | CON => MQTT_CON g
  | CON_HEADER => MQTT_CON_HEADER g
  end.

Definition buf_set (b : buffer) (v : bytes) (g : globals) : globals :=
  match b with
  | PUB => {| MQTT_PUB := v; MQTT_CON := MQTT_CON g;
              MQTT_CON_HEADER := MQTT_CON_HEADER g |}
  | CON => {| MQTT_PUB := MQTT_PUB g; MQTT_CON := v;
              MQTT_CON_HEADER := MQTT_CON_HEADER g |}
  | CON_HEADER => {| MQTT_PUB := MQTT_PUB g; MQTT_CON := MQTT_CON g;
                     MQTT_CON_HEADER := v |}
  end.

Definition buf_contents (b : buffer) : M bytes :=
  let* g := get_glob in ret (buf_get b g).

(** [buf[i]]. *)
Definition buf_load (b : buffer) (i : nat) : M Z :=
  let* g := get_glob in lift (getitem (buf_get b g) i).

(** [buf[i] = v]. *)
Definition buf_store (b : buffer) (i : nat) (v : Z) : M unit :=
  let* g := get_glob in
  let* new := lift (setitem (buf_get b g) i v) in
  put_glob (buf_set b new g).

(** [buf[i] |= v]. *)
Definition buf_or (b : buffer) (i : nat) (v : Z) : M unit :=
  let* old := buf_load b i in buf_store b i (Z.lor old v).

(** [for x in l: body(x)]. *)
Fixpoint for_each {A} (l : list A) (body : A -> M unit) : M unit :=
  match l with
  | [] => ret tt
  | x :: l' => body x >> for_each l' body
  end.

(** [while 1: ...] around a body that starts by polling the transport. The
    body answers [Some a] for [return a] and [None] to go round again. A
    turn that found the transport silent and asks to go round again has
    changed nothing, so every later turn does the same and the loop never
    ends: that is [Blocked]. Every other turn consumes input, so the turns
    are bounded by [fuel]. *)
Fixpoint while_1 {A} (fuel : nat) (body : M (option A)) : M A :=
  fun m =>
    match body m with
    | (Ok (Some a), m') => (Ok a, m')
    | (Ok None, m') =>
        match inbound m with
        | [] => (Blocked, m')
        | _ :: _ =>
            match fuel with
            | O => (OutOfFuel, m')
            | S fuel' => while_1 fuel' body m'
            end
        end
    | (Raise e, m') => (Raise e, m')
    | (Blocked, m') => (Blocked, m')
    | (OutOfFuel, m') => (OutOfFuel, m')
    end.

(** The loop with the bound its input allows. *)
Definition forever {A} (body : M (option A)) : M A :=
  fun m => while_1 (length (inbound m)) body m.

(** ** The remaining-length loop

    [connect] and [publish] carry the same loop, each over its own buffer:
<<
        i = 1
        while sz > 0x7f:
            pkt[i] = (sz & 0x7f) | 0x80
            sz >>= 7
            i += 1
        pkt[i] = sz
>>
    It answers the index of the last length byte. Each turn removes seven
    bits from [sz], which bounds the turns. *)
Fixpoint length_loop (fuel : nat) (pkt : buffer) (sz : Z) (i : nat) : M nat :=
  if 0x7f <? sz then
    match fuel with
    | O => fun m => (OutOfFuel, m)
    | S fuel' =>
        buf_store pkt i (Z.lor (Z.land sz 0x7f) 0x80) >>
        length_loop fuel' pkt (Z.shiftr sz 7) (S i)
    end
  else
    buf_store pkt i sz >> ret i.

Definition encode_remaining_length (pkt : buffer) (sz : Z) : M nat :=
  length_loop (Z.to_nat (Z.log2 sz)) pkt sz 1.

(** ** Methods *)

(** [is_connected]. *)
Definition is_connected : M bool :=
  the_sock >>
  let* c := get_self in
  if negb (_is_connected c) then raise (MMQTTException "MiniMQTT is not connected.")
  else ret (_is_connected c).

(** [last_will]. *)
Definition last_will (topic message : option pystr) (qos : Z) (retain : bool)
  : M unit :=
  let* c := get_self in
  if _is_connected c then
    raise (MMQTTException "Last Will should be defined before connect() is called.")
  else if (qos <? 0) || (2 <? qos) then
    raise (MMQTTException "Invalid QoS level,  must be between 0 and 2.")
  else modify_self (set_last_will qos topic message retain).

(** [_check_topic]. *)
Definition _check_topic (topic : option pystr) : M unit :=
  match topic with
  | None => raise (MMQTTException "Topic may not be Nonetype")
  | Some t =>
      if len t =? 0 then raise (MMQTTException "Topic may not be empty.")
      else
        let* enc := lift (str_encode t) in
        if MQTT_TOPIC_LENGTH_LIMIT <? len enc then
          raise (MMQTTException "Topic length is too large.")
        else ret tt
  end.

(** [_send_str]; [string] is a [str] or [None]. *)
Definition _send_str (string : option pystr) : M unit :=
  the_sock >>
  match string with
  | None => raise TypeError                       (* len(None) *)
  | Some s =>
      let* prefix := lift (pack_H (len s)) in
      sock_write prefix >>
      let* data := lift (str_encode s) in
      sock_write data
  end.

(** [_recv_len]: every turn reads one byte, so the turns are bounded by the
    bytes at hand; on a silent transport [read(1)[0]] is an IndexError. *)
Fixpoint _recv_len_loop (fuel : nat) (n sh : Z) : M Z :=
  let* r := sock_read 1 in
  let* b := lift (getitem r 0) in
  let n := Z.lor n (Z.shiftl (Z.land b 0x7f) sh) in
  if Z.land b 0x80 =? 0 then ret n
  else
    match fuel with
    | O => fun m => (OutOfFuel, m)
    | S fuel' => _recv_len_loop fuel' n (sh + 7)
    end.

Definition _recv_len : M Z :=
  fun m => _recv_len_loop (length (inbound m)) 0 0 m.

(** [wait_for_msg]. [res == MQTT_PINGRESP] compares a [bytes] with an
    [int], which is never equal, so that branch is not taken. *)
Definition wait_for_msg : M (option Z) :=
  sock_settimeout >>
  let* res := sock_read 1 in
  match res with
  | [] => ret None
  | r0 :: _ =>
      if negb (Z.land r0 0xf0 =? 0x30) then ret (Some r0)
      else
        let* sz := _recv_len in
        let* tl := sock_read 2 in
        let* t0 := lift (getitem tl 0) in
        let* t1 := lift (getitem tl 1) in
        let topic_len := Z.lor (Z.shiftl t0 8) t1 in
        let* topic := sock_read topic_len in
        let* topic := lift (str_decode topic) in
        let sz := sz - (topic_len + 2) in
        let* pid_sz :=
          (if negb (Z.land r0 0x06 =? 0) then
             let* p := sock_read 2 in
             let* p0 := lift (getitem p 0) in
             let* p1 := lift (getitem p 1) in
             ret (Z.lor (Z.shiftl p0 8) p1, sz - 2)
           else ret (0, sz)) in
        let* msg := sock_read (snd pid_sz) in
        let* c := get_self in
        (if on_message c then
           let* text := lift (str_decode msg) in act (OnMessage topic text)
         else ret tt) >>
        (if Z.land r0 0x06 =? 0x02 then
           let* pkt := lift (pack_into_H [0x40; 0x02; 0; 0] 2 (fst pid_sz)) in
           sock_write pkt
         else if Z.land r0 6 =? 4 then assert false
         else ret tt) >>
        ret (Some r0)
  end.

(** The message argument of [publish], by its Python type. A float is
    carried by the text [str] gives for it. *)
Inductive pymsg :=
| MsgNone
| MsgBool (b : bool)
| MsgInt (n : Z)
| MsgFloat (text : pystr)
| MsgStr (s : pystr)
| MsgOther.

Definition str_True : pystr := [84; 114; 117; 101].
Definition str_False : pystr := [70; 97; 108; 115; 101].

(** The [msg] checks of [publish], up to the bytes to send. *)
Definition coerce_msg (msg : pymsg) : res bytes :=
  match msg with
  | MsgNone => inl (MMQTTException "Message can not be None.")
  | MsgBool b => ascii_encode (if b then str_True else str_False)
  | MsgInt n => ascii_encode (str_of_int n)
  | MsgFloat text => ascii_encode text
  | MsgStr s => str_encode s
  | MsgOther => inl (MMQTTException "Invalid message data type.")
  end.

Definition opt_is (op : option Z) (v : Z) : bool :=
  match op with Some x => x =? v | None => false end.

(** One turn of the acknowledgment loop of [publish]. *)
Definition puback_turn (pid : Z) : M (option unit) :=
  let* op := wait_for_msg in
  if opt_is op 0x40 then
    let* sz := sock_read 1 in
    assert (pystr_eqb sz [0x02]) >>
    let* rcv := sock_read 2 in
    let* r0 := lift (getitem rcv 0) in
    let* r1 := lift (getitem rcv 1) in
    let rcv_pid := Z.lor (Z.shiftl r0 8) r1 in
    callback on_publish (OnPublish rcv_pid) >>
    if pid =? rcv_pid then ret (Some tt) else ret None
  else ret None.

(** The remaining length [publish] computes:
    [sz = 2 + len(topic) + len(msg)], and [sz += 2] when [qos > 0]. *)
Definition publish_sz (topic : pystr) (msg : bytes) (qos : Z) : Z :=
  let sz := 2 + len topic + len msg in
  if 0 <? qos then sz + 2 else sz.

(** [publish]. *)
Definition publish (topic : pystr) (msg : pymsg) (retain : bool) (qos : Z)
  : M unit :=
  is_connected >>
  _check_topic (Some topic) >>
  (if contains_char 43 topic || contains_char 35 topic then
     raise (MMQTTException "Topic can not contain wildcards.")
   else ret tt) >>
  let* msg := lift (coerce_msg msg) in
  (if MQTT_MSG_MAX_SZ <? len msg then
     raise (MMQTTException "Message size larger than 268435455b.")
   else ret tt) >>
  (if (qos <? 0) || (2 <? qos) then
     raise (MMQTTException "Invalid QoS level,  must be between 0 and 2.")
   else ret tt) >>
  buf_or PUB 0 (Z.lor (Z.shiftl qos 1) (bool_int retain)) >>
  let sz := publish_sz topic msg qos in
  assert (sz <? 2097152) >>
  encode_remaining_length PUB sz >>
  let* pkt := buf_contents PUB in
  sock_write pkt >>
  _send_str (Some topic) >>
  (if qos =? 0 then
     let* c := get_self in callback on_publish (OnPublish (_pid c))
   else ret tt) >>
  let* pid :=
    (if 0 <? qos then
       modify_self (fun c => set_pid (_pid c + 1) c) >>
       let* c := get_self in
       let pid := _pid c in
       let* g := get_glob in
       let* packed := lift (pack_into_H (MQTT_PUB g) 0 pid) in
       put_glob (buf_set PUB packed g) >>
       sock_write packed >>
       callback on_publish (OnPublish pid) >>
       ret pid
     else ret 0) in
  sock_write msg >>
  if qos =? 1 then forever (puback_turn pid)
  else if qos =? 2 then assert false
  else ret tt.

(** The [topic] argument of [subscribe], by its Python type. *)
Inductive sub_arg :=
| SubStr (t : pystr)
| SubTuple (t : pystr) (q : Z)
| SubList (l : list (pystr * Z))
| SubOther.

Definition check_sub_qos (q : Z) : M unit :=
  if (q <? 0) || (2 <? q) then
    raise (MMQTTException "QoS level must be between 1 and 2.")
  else ret tt.

(** [sum(len(topic) for topic, qos in topics)]. *)
Definition sum_len {A} (f : A -> pystr) (l : list A) : Z :=
  fold_right (fun x acc => len (f x) + acc) 0 l.

(** The remaining length [subscribe] computes. *)
Definition subscribe_length (topics : list (pystr * Z)) : Z :=
  let packet_length := 2 + 2 * len topics + 1 * len topics in
  packet_length + sum_len fst topics.

(** The remaining length [unsubscribe] computes. *)
Definition unsubscribe_length (topics : list pystr) : Z :=
  let packet_length := 2 + 2 * len topics in
  packet_length + sum_len (fun t => t) topics.

(** One turn of the acknowledgment loop of [subscribe]. *)
Definition suback_turn (packet : bytes) (topics : list (pystr * Z))
  : M (option unit) :=
  let* op := wait_for_msg in
  if opt_is op 0x90 then
    let* rc := sock_read 4 in
    let* rc1 := lift (getitem rc 1) in
    let* p2 := lift (getitem packet 2) in
    (if rc1 =? p2 then
       let* rc2 := lift (getitem rc 2) in
       let* p3 := lift (getitem packet 3) in
       assert (rc2 =? p3)
     else assert false) >>
    let* rc3 := lift (getitem rc 3) in
    if rc3 =? 0x80 then raise (MMQTTException "SUBACK Failure!")
    else
      for_each topics (fun t =>
        callback on_subscribe (OnSubscribe rc3) >>
        modify_self (fun c =>
          set_subscribed_topics (_subscribed_topics c ++ [fst t]) c)) >>
      ret (Some tt)
  else ret None.

(** [packet += topic_size + t + qos_byte] for every requested topic. *)
Fixpoint sub_payload (topics : list (pystr * Z)) : res bytes :=
  match topics with
  | [] => inr []
  | (t, q) :: rest =>
      match to_bytes (len t) 2 with
      | inl e => inl e
      | inr topic_size =>
          match to_bytes q 1 with
          | inl e => inl e
          | inr qos_byte =>
              match str_encode t with
              | inl e => inl e
              | inr data =>
                  match sub_payload rest with
                  | inl e => inl e
                  | inr more => inr (topic_size ++ data ++ qos_byte ++ more)
                  end
              end
          end
      end
  end.

(** [subscribe], from "Assemble packet" on: [topics] is the list of
    requests the first half has checked. *)
Definition subscribe_request (topics : list (pystr * Z)) : M unit :=
  let packet_length := subscribe_length topics in
  let* packet_length_byte := lift (to_bytes packet_length 1) in
  modify_self (fun c => set_pid (_pid c + 11) c) >>
  let* c := get_self in
  let* packet_id_bytes := lift (to_bytes (_pid c) 2) in
  let packet := MQTT_SUB ++ packet_length_byte ++ packet_id_bytes in
  let* payload := lift (sub_payload topics) in
  let packet := packet ++ payload in
  sock_write packet >>
  forever (suback_turn packet topics).

(** [subscribe]. *)
Definition subscribe (topic : sub_arg) (qos : Z) : M unit :=
  is_connected >>
  let* tq :=
    (match topic with
     | SubTuple t q => _check_topic (Some t) >> ret (SubStr t, q)
     | _ => ret (topic, qos)
     end) in
  let* topics :=
    (match fst tq with
     | SubStr t =>
         _check_topic (Some t) >> check_sub_qos (snd tq) >>
         ret (Some [(t, snd tq)])
     | SubList l =>
         for_each l (fun tq => check_sub_qos (snd tq) >> _check_topic (Some (fst tq)))
         >> ret (Some l)
     | _ => ret None
     end) in
  match topics with
  | None => raise TypeError                        (* len(None) *)
  | Some topics => subscribe_request topics
  end.

(** The [topic] argument of [unsubscribe], by its Python type. *)
Inductive unsub_arg :=
| UnsubStr (t : pystr)
| UnsubList (l : list pystr)
| UnsubOther.

(** [packet += topic_size + t] for every topic. *)
Fixpoint unsub_payload (topics : list pystr) : res bytes :=
  match topics with
  | [] => inr []
  | t :: rest =>
      match to_bytes (len t) 2 with
      | inl e => inl e
      | inr topic_size =>
          match str_encode t with
          | inl e => inl e
          | inr data =>
              match unsub_payload rest with
              | inl e => inl e
              | inr more => inr (topic_size ++ data ++ more)
              end
          end
      end
  end.

(** One turn of the acknowledgment loop of [unsubscribe]. *)
Definition unsuback_turn (packet_id_bytes : bytes) (topics : list pystr)
  : M (option unit) :=
  let* op := wait_for_msg in
  if opt_is op 0x01 then
    let* return_code := sock_read 4 in
    let* r1 := lift (getitem return_code 1) in
    assert (r1 =? 0x02) >>
    let* r2 := lift (getitem return_code 2) in
    let* b0 := lift (getitem packet_id_bytes 0) in
    (if r2 =? b0 then
       let* r3 := lift (getitem return_code 3) in
       let* b1 := lift (getitem packet_id_bytes 1) in
       assert (r3 =? b1)
     else assert false) >>
    for_each topics (fun t =>
      let* c := get_self in
      callback on_unsubscribe (OnUnsubscribe t (_pid c)) >>
      let* c := get_self in
      let* rest := lift (list_remove t (_subscribed_topics c)) in
      modify_self (set_subscribed_topics rest)) >>
    ret (Some tt)
  else ret None.

(** [unsubscribe], from the check against the subscriptions on:
    [topics] is the list the first half has checked. *)
Definition unsubscribe_request (topics : list pystr) : M unit :=
  for_each topics (fun t =>
    let* c := get_self in
    if negb (str_in t (_subscribed_topics c)) then
      raise (MMQTTException
               "Topic must be subscribed to before attempting to unsubscribe.")
    else ret tt) >>
  let packet_length := unsubscribe_length topics in
  let* packet_length_byte := lift (to_bytes packet_length 1) in
  modify_self (fun c => set_pid (_pid c + 11) c) >>
  let* c := get_self in
  let* packet_id_bytes := lift (to_bytes (_pid c) 2) in
  let packet := MQTT_UNSUB ++ packet_length_byte ++ packet_id_bytes in
  let* payload := lift (unsub_payload topics) in
  let packet := packet ++ payload in
  sock_write packet >>
  forever (unsuback_turn packet_id_bytes topics).

(** [unsubscribe]. *)
Definition unsubscribe (topic : unsub_arg) : M unit :=
  let* topics :=
    (match topic with
     | UnsubStr t => _check_topic (Some t) >> ret (Some [t])
     | UnsubList l =>
         for_each l (fun t => _check_topic (Some t)) >> ret (Some l)
     | UnsubOther => ret None
     end) in
  match topics with
  | None => raise TypeError                        (* iterating None *)
  | Some topics => unsubscribe_request topics
  end.

(** [self._sock.connect(addr, mode)]; the RuntimeError of the transport is
    turned into the library's exception, anything else passes through. *)
Definition sock_connect (mode : Z) : M unit :=
  the_sock >>
  fun m =>
    match link m with
    | None => (Ok tt, emit (SockConnect mode) m)
    | Some RuntimeError =>
        (Raise (MMQTTException "Invalid server address defined."), m)
    | Some e => (Raise e, m)
    end.

Definition truthy (s : option pystr) : bool :=
  match s with Some (_ :: _) => true | _ => false end.

(** [len(x)] where [x] may be [None]. *)
Definition len_opt (s : option pystr) : res Z :=
  match s with Some t => inr (len t) | None => inl TypeError end.

(** [connect], up to the last [_send_str]: everything the call does before
    it reads the answer. *)
Definition connect_send (clean_session : bool) : M unit :=
  let* c := get_self in
  (if _esp c then modify_self (set_sock true) else raise TypeError) >>
  sock_settimeout >>
  (if port c =? 8883 then sock_connect TLS_MODE else sock_connect TCP_MODE) >>
  buf_store CON_HEADER 6 (Z.shiftl (bool_int clean_session) 1) >>
  let sz := 12 + len (_client_id c) in
  let* sz :=
    (match _user c with
     | Some u =>
         let sz := sz + (2 + len u + 2 + len (_pass c)) in
         buf_or CON_HEADER 6 0xC0 >> ret sz
     | None => ret sz
     end) in
  (if negb (_keep_alive c =? 0) then
     assert (_keep_alive c <? MQTT_TOPIC_LENGTH_LIMIT) >>
     buf_or CON_HEADER 7 (Z.shiftr (_keep_alive c) 8) >>
     buf_or CON_HEADER 8 (Z.land (_keep_alive c) 0x00FF)
   else ret tt) >>
  let* sz :=
    (if truthy (_lw_topic c) then
       let* lt := lift (len_opt (_lw_topic c)) in
       let* lm := lift (len_opt (_lw_msg c)) in
       buf_or CON_HEADER 6
         (Z.lor (Z.lor 0x4 (Z.shiftl (Z.land (_lw_qos c) 0x1) 3))
                (Z.shiftl (Z.land (_lw_qos c) 0x2) 3)) >>
       buf_or CON_HEADER 6 (Z.shiftl (bool_int (_lw_retain c)) 5) >>
       ret (sz + (2 + lt + 2 + lm))
     else ret sz) in
  encode_remaining_length CON sz >>
  let* premsg := buf_contents CON in
  sock_write premsg >>
  let* msg := buf_contents CON_HEADER in
  sock_write msg >>
  _send_str (Some (_client_id c)) >>
  (if truthy (_lw_topic c) then
     _send_str (_lw_topic c) >> _send_str (_lw_msg c)
   else ret tt) >>
  (match _user c with
   | None => ret tt
   | Some u => _send_str (Some u) >> _send_str (Some (_pass c))
   end).

(** [connect], from [rc = self._sock.read(4)] to the end. *)
Definition connect_recv : M Z :=
  let* rc := sock_read 4 in
  let* rc0 := lift (getitem rc 0) in
  (if rc0 =? 0x20 then
     let* rc1 := lift (getitem rc 1) in assert (rc1 =? 0x02)
   else assert false) >>
  let* rc3 := lift (getitem rc 3) in
  (if negb (rc3 =? 0) then
     let* text := lift (CONNACK_ERRORS_getitem rc3) in
     raise (MMQTTException text)
   else ret tt) >>
  modify_self (set_is_connected true) >>
  let* rc2 := lift (getitem rc 2) in
  let result := Z.land rc2 1 in
  callback on_connect (OnConnect result rc3) >>
  ret result.

(** [connect]. *)
Definition connect (clean_session : bool) : M Z :=
  connect_send clean_session >> connect_recv.

(** [disconnect]. *)
Definition disconnect : M unit :=
  is_connected >>
  sock_write MQTT_DISCONNECT >>
  (the_sock >> act SockClose) >>
  modify_self (set_is_connected false) >>
  callback on_disconnect OnDisconnect.

(** [ping]. *)
Definition ping : M unit :=
  is_connected >>
  sock_write MQTT_PINGREQ >>
  let* ping_resp := sock_read 2 in
  let* p0 := lift (getitem ping_resp 0) in
  if negb (p0 =? MQTT_PINGRESP) then
    raise (MMQTTException "PINGRESP not returned from server.")
  else
    let* p1 := lift (getitem ping_resp 1) in
    if negb (p1 =? 0x00) then
      raise (MMQTTException "PINGRESP not returned from server.")
    else ret tt.

(** ** The constructor *)

(** The [esp] argument: whether it has the [_gpio0] attribute, and its truth
    value. *)
Record esp_obj := { has_gpio0 : bool; esp_truth : bool }.

(** The arguments of [MQTT(...)]; [None] is the default of each optional
    one. [log] only attaches the logger. *)
Record init_args := {
  server_address : pystr;
  arg_port : option Z;
  username : option pystr;
  password : option pystr;
  esp : option esp_obj;
  client_id : option pystr;
  is_ssl : bool
}.

(** What the constructor reads from the device when it has to make up a
    client id: the CPU uid and the two [randint] draws. *)
Record device := { cpu_uid : bytes; draw_index : nat; draw_digit : Z }.

Definition str_cpy : pystr := [99; 112; 121].

(** [__init__]: the new client, or the exception that ends the call. *)
Definition MQTT_init (a : init_args) (d : device) : res MQTT :=
  match esp a with
  | None => inl NotImplementedError
  | Some e =>
      if negb (has_gpio0 e) then
        inl (MMQTTException "Invalid ESP32SPI object provided.")
      else
        let port0 := if is_ssl a then MQTT_TLS_PORT else MQTT_TCP_PORT in
        let port1 := match arg_port a with Some p => p | None => port0 end in
        match password a with
        | None => inl AttributeError               (* None.encode *)
        | Some pw =>
            match str_encode pw with
            | inl err => inl err
            | inr enc =>
                if MQTT_TOPIC_LENGTH_LIMIT <? len enc then
                  inl (MMQTTException "Password length is too large.")
                else
                  let made :=
                    match client_id a with
                    | Some cid => inr cid
                    | None =>
                        match getitem (cpu_uid d) (draw_index d) with
                        | inl err => inl err
                        | inr u =>
                            let cid := str_cpy ++ str_of_int u
                                         ++ str_of_int (draw_digit d) in
                            if (23 <? len cid) || (len cid =? 0) then
                              inl ValueError
                            else inr cid
                        end
                    end in
                  match made with
                  | inl err => inl err
                  | inr cid =>
                      (* the closing self.last_will() stores its defaults *)
                      inr {| _esp := esp_truth e; port := port1;
                             server := server_address a;
                             _user := username a; _pass := pw;
                             _client_id := cid; _is_connected := false;
                             _keep_alive := 0; _pid := 0;
                             _subscribed_topics := [];
                             on_message := false; on_connect := false;
                             on_disconnect := false; on_publish := false;
                             on_subscribe := false; on_unsubscribe := false;
                             _lw_qos := 0; _lw_topic := None; _lw_msg := None;
                             _lw_retain := false; _sock := false |}
                  end
            end
        end
  end.


(** ** Sample data

    The constructor call of the repository's test, a client as the
    constructor leaves it once callbacks are installed, and the same client
    after a successful [connect]. *)

Definition test_args : init_args :=
  {| server_address := [49; 50; 55; 46; 48; 46; 48; 46; 49];
     arg_port := None; username := None; password := None;
     esp := Some {| has_gpio0 := true; esp_truth := true |};
     client_id := None; is_ssl := true |}.

Definition test_device : device :=
  {| cpu_uid := repeat 42 16; draw_index := 3%nat; draw_digit := 0 |}.

Definition offline_client : MQTT :=
  {| _esp := true; port := 1883;
     server := [49; 50; 55; 46; 48; 46; 48; 46; 49];
     _user := None; _pass := [];
     _client_id := [99; 112; 121; 52; 50; 48]; _is_connected := false;
     _keep_alive := 0; _pid := 0; _subscribed_topics := [];
     on_message := true; on_connect := true; on_disconnect := true;
     on_publish := true; on_subscribe := true; on_unsubscribe := true;
     _lw_qos := 0; _lw_topic := None; _lw_msg := None; _lw_retain := false;
     _sock := false |}.

Definition online_client : MQTT :=
  set_sock true (set_is_connected true offline_client).

(** A fresh run on the broker input [inb]. *)
Definition offline (inb : bytes) : machine :=
  {| self := offline_client; glob := globals0; inbound := inb;
     link := None; trace := [] |}.

Definition online (inb : bytes) : machine :=
  {| self := online_client; glob := globals0; inbound := inb;
     link := None; trace := [] |}.

(** An online client that has subscribed to [topics]. *)
Definition subscribed (topics : list pystr) (inb : bytes) : machine :=
  {| self := set_subscribed_topics topics online_client; glob := globals0;
     inbound := inb; link := None; trace := [] |}.

(** [pkt[lo : hi + 1]]. *)
Definition seg (buf : bytes) (lo hi : nat) : bytes :=
  take (S hi - lo) (drop lo buf).

(** What [_recv_len] computes from the bytes it is given, with the bytes it
    leaves; [None] when they end inside the number. *)
Fixpoint decode_len (bs : bytes) (n sh : Z) : option (Z * bytes) :=
  match bs with
  | [] => None
  | b :: r =>
      let n := Z.lor n (Z.shiftl (Z.land b 0x7f) sh) in
      if Z.land b 0x80 =? 0 then Some (n, r) else decode_len r n (sh + 7)
  end.

(** ** Vocabulary of the statements *)

(** The client has a socket and believes it is connected. *)
Definition connected (m : machine) : Prop :=
  _sock (self m) = true /\ _is_connected (self m) = true.

(** [_check_topic] accepts the topic. *)
Definition valid_topic (t : pystr) : bool :=
  negb (len t =? 0)
  && match str_encode t with
     | inr enc => len enc <=? MQTT_TOPIC_LENGTH_LIMIT
     | inl _ => false
     end.

(** Neither ['+'] nor ['#'] occurs in the topic. *)
Definition no_wildcard (t : pystr) : bool :=
  negb (contains_char 43 t || contains_char 35 t).


(** The list of requests [subscribe] builds from its arguments. *)
Definition sub_topics (topic : sub_arg) (qos : Z) : option (list (pystr * Z)) :=
  match topic with
  | SubStr t => Some [(t, qos)]
  | SubTuple t q => Some [(t, q)]
  | SubList l => Some l
  | SubOther => None
  end.

(** The list of topics [unsubscribe] builds from its argument. *)
Definition unsub_topics (topic : unsub_arg) : option (list pystr) :=
  match topic with
  | UnsubStr t => Some [t]
  | UnsubList l => Some l
  | UnsubOther => None
  end.

(** A request [subscribe] accepts. *)
Definition valid_request (tq : pystr * Z) : Prop :=
  valid_topic (fst tq) = true /\ 0 <= snd tq <= 2.

(** The machine [m] once its input is down to [rest] and the callbacks
    [evs] have been recorded. *)
Definition after (m : machine) (rest : bytes) (evs : list action) : machine :=
  {| self := self m; glob := glob m; inbound := rest; link := link m;
     trace := trace m ++ evs |}.

(** A computation that never reports [OutOfFuel]: the bounds of the model's
    loops are never what ends it. *)
Definition total {A} (c : M A) : Prop := forall m, fst (c m) <> OutOfFuel.

(** Input is only ever consumed. *)
Definition shrinks (m m' : machine) : Prop :=
  (length (inbound m') <= length (inbound m))%nat.

(** Input is consumed from the front: what is unread afterwards is a
    suffix of what was unread before. *)
Definition consumes (m m' : machine) : Prop :=
  exists pre, inbound m = pre ++ inbound m'.

(** ** Frames

    [keeps R c]: whatever [c] does to the machine, the machine it started
    from and the one it leaves are related by [R]. *)
Definition keeps (R : machine -> machine -> Prop) {A} (c : M A) : Prop :=
  forall m, R m (snd (c m)).

(** The trace only grows. *)
Definition trace_grows (m m' : machine) : Prop :=
  exists more, trace m' = trace m ++ more.

(** The session fields of the client and the unread input are left alone,
    and a bound socket stays bound. *)
Record quiet (m m' : machine) : Prop := {
  quiet_inbound : inbound m' = inbound m;
  quiet_link : link m' = link m;
  quiet_connected : _is_connected (self m') = _is_connected (self m);
  quiet_pid : _pid (self m') = _pid (self m);
  quiet_topics : _subscribed_topics (self m') = _subscribed_topics (self m);
  quiet_client_id : _client_id (self m') = _client_id (self m);
  quiet_keep_alive : _keep_alive (self m') = _keep_alive (self m);
  quiet_sock : _sock (self m) = true -> _sock (self m') = true
}.

(** [needle in hay] on texts. *)
Definition contains (needle hay : string) : Prop :=
  exists pre post, hay = (pre ++ needle ++ post)%string.

(** The machine after the checks of [publish]: only the flag bits have
    been stored in [MQTT_PUB]. *)
Definition flagged (h l : Z) (retain : bool) (qos : Z) (m : machine) : machine :=
  set_glob
    (buf_set PUB [Z.lor h (Z.lor (Z.shiftl qos 1) (bool_int retain)); l] (glob m))
    m.

(** The machine once [publish] with [qos > 0] has sent everything: the
    packet id is one up, [MQTT_PUB] holds the two bytes of the packet id, and
    the trace has the header with the length, the topic, the packet id, the
    callback and the payload, in this order. *)
Definition published (h : Z) (topic : pystr) (enc payload : bytes)
    (retain : bool) (qos : Z) (m : machine) : machine :=
  let pid := _pid (self m) + 1 in
  {| self := set_pid pid (self m);
     glob := buf_set PUB (be_digits 2 pid) (glob m);
     inbound := inbound m;
     link := link m;
     trace :=
       trace m
       ++ [SockWrite [Z.lor h (Z.lor (Z.shiftl qos 1) (bool_int retain));
                      publish_sz topic payload qos];
           SockWrite (be_digits 2 (len topic));
           SockWrite enc;
           SockWrite (be_digits 2 pid)]
       ++ (if on_publish (self m) then [OnPublish pid] else [])
       ++ [SockWrite payload] |}.


(** The machine [publish] with [qos > 0] leaves when the new packet id does
    not fit the two bytes of [struct.pack_into]: the counter is one up, the
    header with the length and the topic have been written, and nothing
    else. *)
Definition id_overflow (h : Z) (topic : pystr) (enc payload : bytes)
    (retain : bool) (qos : Z) (m : machine) : machine :=
  {| self := set_pid (_pid (self m) + 1) (self m);
     glob := buf_set PUB
               [Z.lor h (Z.lor (Z.shiftl qos 1) (bool_int retain));
                publish_sz topic payload qos] (glob m);
     inbound := inbound m;
     link := link m;
     trace :=
       trace m
       ++ [SockWrite [Z.lor h (Z.lor (Z.shiftl qos 1) (bool_int retain));
                      publish_sz topic payload qos];
           SockWrite (be_digits 2 (len topic));
           SockWrite enc] |}.
(** * Properties *)

(** ** Running the monad *)

Lemma bind_Ok {A B} (c : M A) (k : A -> M B) m a m1 :
  c m = (Ok a, m1) -> bind c k m = k a m1.
Proof. intros H. unfold bind. now rewrite H. Qed.

Lemma bind_Raise {A B} (c : M A) (k : A -> M B) m e m1 :
  c m = (Raise e, m1) -> bind c k m = (Raise e, m1).
Proof. intros H. unfold bind. now rewrite H. Qed.

Lemma bind_inv_Ok {A B} (c : M A) (k : A -> M B) m b m2 :
  bind c k m = (Ok b, m2) ->
  exists a m1, c m = (Ok a, m1) /\ k a m1 = (Ok b, m2).
Proof.
  unfold bind. destruct (c m) as [[a|e| | ] m1]; intros H; try discriminate.
  now exists a, m1.
Qed.

(** ** Frames: what a computation leaves alone *)

Section Frames.
Context (R : machine -> machine -> Prop) `{!PreOrder R}.

Lemma keeps_ret {A} (a : A) : keeps R (ret a).
Proof. intros m. reflexivity. Qed.

Lemma keeps_raise {A} (e : exn) : keeps R (@raise A e).
Proof. intros m. reflexivity. Qed.

Lemma keeps_bind {A B} (c : M A) (k : A -> M B) :
  keeps R c -> (forall a, keeps R (k a)) -> keeps R (bind c k).
Proof.
  intros Hc Hk m. unfold bind. specialize (Hc m).
  destruct (c m) as [[a|e| | ] m1]; simpl in *; trivial.
  etransitivity; [exact Hc | apply Hk].
Qed.

Lemma keeps_lift {A} (r : res A) : keeps R (lift r).
Proof. destruct r; [apply keeps_raise | apply keeps_ret]. Qed.

Lemma keeps_assert b : keeps R (assert b).
Proof. destruct b; [apply keeps_ret | apply keeps_raise]. Qed.

Lemma keeps_when b c : keeps R c -> keeps R (when b c).
Proof. destruct b; [trivial | intros _; apply keeps_ret]. Qed.

Lemma keeps_get_self : keeps R get_self.
Proof. intros m. reflexivity. Qed.

Lemma keeps_get_glob : keeps R get_glob.
Proof. intros m. reflexivity. Qed.

Lemma keeps_the_sock : keeps R the_sock.
Proof.
  apply keeps_bind; [apply keeps_get_self | intros c].
  destruct (_sock c); [apply keeps_ret | apply keeps_raise].
Qed.

Lemma keeps_for_each {A} (l : list A) (body : A -> M unit) :
  (forall x, keeps R (body x)) -> keeps R (for_each l body).
Proof.
  intros Hb. induction l as [|x l IH]; simpl.
  - apply keeps_ret.
  - apply keeps_bind; [apply Hb | intros _; exact IH].
Qed.

Lemma keeps_while_1 {A} fuel (body : M (option A)) :
  keeps R body -> keeps R (while_1 fuel body).
Proof.
  intros Hb. induction fuel as [|f IH]; intros m; simpl;
    specialize (Hb m);
    destruct (body m) as [[[a|]|e| | ] m1]; simpl in *; trivial;
    destruct (inbound m); simpl; trivial.
  etransitivity; [exact Hb | apply IH].
Qed.

Lemma keeps_forever {A} (body : M (option A)) :
  keeps R body -> keeps R (forever body).
Proof. intros Hb m. unfold forever. now apply keeps_while_1. Qed.
End Frames.

(** Every step of the frame proofs below is one of these. *)
Ltac keeps_step :=
  lazymatch goal with
  | |- keeps ?R (bind _ _) => apply (keeps_bind R); [| intros ?]
  | |- keeps ?R (ret _) => apply (keeps_ret R)
  | |- keeps ?R (raise _) => apply (keeps_raise R)
  | |- keeps ?R (lift _) => apply (keeps_lift R)
  | |- keeps ?R (assert _) => apply (keeps_assert R)
  | |- keeps ?R get_self => apply (keeps_get_self R)
  | |- keeps ?R get_glob => apply (keeps_get_glob R)
  | |- keeps ?R the_sock => apply (keeps_the_sock R)
  | |- keeps ?R sock_settimeout => apply (keeps_the_sock R)
  | |- keeps ?R (when _ _) => apply (keeps_when R)
  | |- keeps ?R (for_each _ _) => apply (keeps_for_each R); intros ?
  | |- keeps ?R (forever _) => apply (keeps_forever R)
  | |- keeps _ (if ?b then _ else _) => destruct b
  | |- keeps _ (match ?x with _ => _ end) => destruct x
  end.

(** *** The trace only grows *)

#[local] Instance trace_grows_preorder : PreOrder trace_grows.
Proof.
  split.
  - intros m. exists []. now rewrite app_nil_r.
  - intros a b c [x Hx] [y Hy]. exists (x ++ y). now rewrite Hy, Hx, <- app_assoc.
Qed.

Create HintDb keeps.

Lemma grows_modify_self f : keeps trace_grows (modify_self f).
Proof. intros m. exists []. simpl. now rewrite app_nil_r. Qed.

Lemma grows_put_glob g : keeps trace_grows (put_glob g).
Proof. intros m. exists []. simpl. now rewrite app_nil_r. Qed.

Lemma grows_act a : keeps trace_grows (act a).
Proof. intros m. now exists [a]. Qed.

Lemma grows_sock_read n : keeps trace_grows (sock_read n).
Proof.
  unfold sock_read. keeps_step; [keeps_step|].
  intros m. exists []. simpl. now rewrite app_nil_r.
Qed.

#[local] Hint Resolve grows_modify_self grows_put_glob grows_act grows_sock_read
  : keeps.

Ltac keeps_auto := repeat first [keeps_step | solve [auto with keeps]].

Lemma grows_callback slot a : keeps trace_grows (callback slot a).
Proof. unfold callback. keeps_auto. Qed.

Lemma grows_sock_write bs : keeps trace_grows (sock_write bs).
Proof. unfold sock_write. keeps_auto. Qed.

#[local] Hint Resolve grows_callback grows_sock_write : keeps.

Lemma grows_recv_len_loop fuel n sh : keeps trace_grows (_recv_len_loop fuel n sh).
Proof.
  revert n sh. induction fuel as [|f IH]; intros n sh; simpl; keeps_auto.
  intros m. reflexivity.
Qed.

Lemma grows_recv_len : keeps trace_grows _recv_len.
Proof. intros m. unfold _recv_len. apply grows_recv_len_loop. Qed.

#[local] Hint Resolve grows_recv_len : keeps.

Lemma grows_wait_for_msg : keeps trace_grows wait_for_msg.
Proof. unfold wait_for_msg. keeps_auto. Qed.

#[local] Hint Resolve grows_wait_for_msg : keeps.

Lemma grows_suback_turn packet topics : keeps trace_grows (suback_turn packet topics).
Proof. unfold suback_turn. keeps_auto. Qed.

Lemma grows_unsuback_turn pib topics : keeps trace_grows (unsuback_turn pib topics).
Proof. unfold unsuback_turn. keeps_auto. Qed.

Lemma grows_puback_turn pid : keeps trace_grows (puback_turn pid).
Proof. unfold puback_turn. keeps_auto. Qed.

(** *** Sending leaves the session and the unread input alone *)

#[local] Instance quiet_preorder : PreOrder quiet.
Proof.
  split.
  - intros m. now split.
  - intros a b c [] []. split; try congruence. auto.
Qed.

Lemma quiet_set_sock : keeps quiet (modify_self (set_sock true)).
Proof. intros m. now split. Qed.

Lemma quiet_put_glob g : keeps quiet (put_glob g).
Proof. intros m. now split. Qed.

Lemma quiet_act a : keeps quiet (act a).
Proof. intros m. now split. Qed.

Lemma quiet_sock_connect mode : keeps quiet (sock_connect mode).
Proof.
  unfold sock_connect. keeps_step; [keeps_step|].
  intros m. destruct (link m) as [[]|]; now split.
Qed.

#[local] Hint Resolve quiet_set_sock quiet_put_glob quiet_act quiet_sock_connect
  : keeps.

Lemma quiet_buf_store b i v : keeps quiet (buf_store b i v).
Proof. unfold buf_store. keeps_auto. Qed.

#[local] Hint Resolve quiet_buf_store : keeps.

Lemma quiet_buf_or b i v : keeps quiet (buf_or b i v).
Proof. unfold buf_or, buf_load. keeps_auto. Qed.

Lemma quiet_buf_contents b : keeps quiet (buf_contents b).
Proof. unfold buf_contents. keeps_auto. Qed.

Lemma quiet_sock_write bs : keeps quiet (sock_write bs).
Proof. unfold sock_write. keeps_auto. Qed.

#[local] Hint Resolve quiet_buf_or quiet_buf_contents quiet_sock_write : keeps.

Lemma quiet_send_str s : keeps quiet (_send_str s).
Proof. unfold _send_str. keeps_auto. Qed.

Lemma quiet_length_loop fuel pkt sz i : keeps quiet (length_loop fuel pkt sz i).
Proof.
  revert sz i. induction fuel as [|f IH]; intros sz i; simpl; keeps_auto.
  intros m. reflexivity.
Qed.

#[local] Hint Resolve quiet_send_str quiet_length_loop : keeps.

Lemma quiet_connect_send cs : keeps quiet (connect_send cs).
Proof. unfold connect_send, encode_remaining_length. keeps_auto. Qed.

(** A send phase that completes has bound the socket. *)
Lemma connect_send_binds_sock cs m m1 :
  connect_send cs m = (Ok tt, m1) -> _sock (self m1) = true.
Proof.
  intros H. unfold connect_send in H.
  apply bind_inv_Ok in H as (c & m0 & Hc & H).
  injection Hc as <- <-.
  apply bind_inv_Ok in H as ([] & m2 & H2 & H).
  destruct (_esp (self m)); [|discriminate].
  injection H2 as <-. cbv beta in H.
  match type of H with
  | ?r ?m2 = _ =>
      assert (Hq : keeps quiet r)
        by (unfold encode_remaining_length; keeps_auto);
      specialize (Hq m2)
  end.
  rewrite H in Hq. now apply (quiet_sock _ _ Hq).
Qed.

(** ** The constructor *)

(** C8. A call of the constructor with [password] omitted or [None] raises:
    [NotImplementedError] or the library's exception when the [esp]
    argument is refused, and otherwise [AttributeError] from
    [password.encode]; so no client is ever built without a password. *)
Theorem MQTT_init_password_None (a : init_args) (d : device) :
  password a = None ->
  MQTT_init a d =
    inl (match esp a with
         | None => NotImplementedError
         | Some e =>
             if has_gpio0 e then AttributeError
             else MMQTTException "Invalid ESP32SPI object provided."
         end)
  /\ forall c, MQTT_init a d <> inr c.
Proof.
  intros Hp.
  assert (E : MQTT_init a d =
    inl (match esp a with
         | None => NotImplementedError
         | Some e =>
             if has_gpio0 e then AttributeError
             else MMQTTException "Invalid ESP32SPI object provided."
         end)).
  { unfold MQTT_init. destruct (esp a) as [e|]; [|reflexivity].
    destruct (has_gpio0 e); simpl; [|reflexivity]. now rewrite Hp. }
  split; [exact E|]. intros c. rewrite E. discriminate.
Qed.

(** The constructor call of the repository's test, [MQTT(socket, "127.0.0.1",
    esp=...)]: no password, and the call ends in [AttributeError]. *)
Lemma MQTT_init_password_None_witness :
  password test_args = None /\
  (MQTT_init test_args test_device = inl AttributeError
   /\ forall c, MQTT_init test_args test_device <> inr c).
Proof.
  split; [reflexivity|].
  exact (MQTT_init_password_None test_args test_device eq_refl).
Defined.

(** ** The answer to CONNECT *)

(** What [connect] does with a four-byte answer [20 02 sp rc], [rc] not 0:
    it looks [rc] up in [CONNACK_ERRORS]. *)
Lemma connect_recv_refused m sp rc rest :
  _sock (self m) = true ->
  inbound m = 0x20 :: 0x02 :: sp :: rc :: rest ->
  rc <> 0 ->
  connect_recv m =
    (match CONNACK_ERRORS rc with
     | Some text => Raise (MMQTTException text)
     | None => Raise (KeyError rc)
     end, set_inbound rest m).
Proof.
  intros Hs Hi Hrc.
  unfold connect_recv, sock_read, the_sock, get_self, bind.
  rewrite Hs; simpl. rewrite Hi; simpl.
  apply Z.eqb_neq in Hrc. rewrite Hrc; simpl.
  unfold CONNACK_ERRORS_getitem. now destruct (CONNACK_ERRORS rc).
Qed.

(** C6. A [connect] that reads a CONNACK with return code 2 raises the
    library's exception with a text that contains "ID Rejected"; the
    connected flag stays false, and packet id, subscriptions, client id and
    keepalive are what they were. *)
Theorem connect_id_rejected (cs : bool) (m m1 : machine) (sp : Z) (rest : bytes) :
  _is_connected (self m) = false ->
  connect_send cs m = (Ok tt, m1) ->
  inbound m = 0x20 :: 0x02 :: sp :: 0x02 :: rest ->
  exists text m',
    connect cs m = (Raise (MMQTTException text), m')
    /\ contains "ID Rejected" text
    /\ _is_connected (self m') = false
    /\ _pid (self m') = _pid (self m)
    /\ _subscribed_topics (self m') = _subscribed_topics (self m)
    /\ _client_id (self m') = _client_id (self m)
    /\ _keep_alive (self m') = _keep_alive (self m).
Proof.
  intros Hc Hsend Hi.
  pose proof (quiet_connect_send cs m) as Hq. rewrite Hsend in Hq. simpl in Hq.
  destruct Hq as [Qi _ Qc Qp Qt Qid Qk _].
  exists "Connection Refused - ID Rejected"%string, (set_inbound rest m1).
  split; [|split].
  - unfold connect. rewrite (bind_Ok _ _ _ _ _ Hsend).
    rewrite (connect_recv_refused m1 sp 2 rest); trivial.
    + now apply connect_send_binds_sock with cs m.
    + congruence.
    + discriminate.
  - now exists "Connection Refused - "%string, ""%string.
  - simpl. repeat split; congruence.
Qed.

(** A fresh client whose broker answers [20 02 00 02]. *)
Lemma connect_id_rejected_witness :
  _is_connected (self (offline [0x20; 0x02; 0; 0x02])) = false /\
  connect_send true (offline [0x20; 0x02; 0; 0x02])
    = (Ok tt, snd (connect_send true (offline [0x20; 0x02; 0; 0x02]))) /\
  exists text m',
    connect true (offline [0x20; 0x02; 0; 0x02]) = (Raise (MMQTTException text), m')
    /\ contains "ID Rejected" text
    /\ _is_connected (self m') = false
    /\ _pid (self m') = _pid (self (offline [0x20; 0x02; 0; 0x02]))
    /\ _subscribed_topics (self m')
       = _subscribed_topics (self (offline [0x20; 0x02; 0; 0x02]))
    /\ _client_id (self m') = _client_id (self (offline [0x20; 0x02; 0; 0x02]))
    /\ _keep_alive (self m') = _keep_alive (self (offline [0x20; 0x02; 0; 0x02])).
Proof.
  split; [reflexivity|]. split; [reflexivity|].
  apply (connect_id_rejected true (offline [0x20; 0x02; 0; 0x02])
           (snd (connect_send true (offline [0x20; 0x02; 0; 0x02]))) 0 []);
    reflexivity.
Defined.

(** A return code outside 0..5 is not a key of [CONNACK_ERRORS]: the lookup
    raises [KeyError] before the library's exception is built. *)
Lemma connect_unknown_code cs m m1 sp rc rest :
  connect_send cs m = (Ok tt, m1) ->
  inbound m = 0x20 :: 0x02 :: sp :: rc :: rest ->
  rc < 0 \/ 5 < rc ->
  exists m', connect cs m = (Raise (KeyError rc), m').
Proof.
  intros Hsend Hi Hrc.
  pose proof (quiet_connect_send cs m) as Hq. rewrite Hsend in Hq. simpl in Hq.
  exists (set_inbound rest m1).
  unfold connect. rewrite (bind_Ok _ _ _ _ _ Hsend).
  rewrite (connect_recv_refused m1 sp rc rest).
  - unfold CONNACK_ERRORS.
    repeat match goal with
           | |- context [?a =? ?b] => destruct (Z.eqb_spec a b); [lia|]
           end.
    reflexivity.
  - now apply connect_send_binds_sock with cs m.
  - rewrite (quiet_inbound _ _ Hq). exact Hi.
  - lia.
Qed.

(** C5. The answer [20 02 00 06] to [connect]: the call ends in
    [KeyError 6], which is not the library's exception. *)
Theorem connect_code_6_KeyError :
  fst (connect true (offline [0x20; 0x02; 0; 6])) = Raise (KeyError 6)
  /\ is_MMQTTException (KeyError 6) = false.
Proof. split; reflexivity. Qed.

(** ** The remaining length: encoder and decoder *)

Lemma sock_read_run n m :
  _sock (self m) = true ->
  sock_read n m =
    (Ok (take (Z.to_nat n) (inbound m)),
     set_inbound (drop (Z.to_nat n) (inbound m)) m).
Proof.
  intros Hs. unfold sock_read, the_sock, get_self, bind. now rewrite Hs.
Qed.

(** [_recv_len] is [decode_len] on the unread input; the bound on its turns
    is never reached. *)
Lemma recv_len_loop_run bs : forall fuel n sh m,
  _sock (self m) = true -> inbound m = bs -> (length bs <= fuel)%nat ->
  _recv_len_loop fuel n sh m =
    match decode_len bs n sh with
    | Some (v, rest) => (Ok v, set_inbound rest m)
    | None => (Raise IndexError, set_inbound [] m)
    end.
Proof.
  induction bs as [|b r IH]; intros fuel n sh m Hs Hi Hf.
  - destruct fuel; simpl; unfold bind; rewrite sock_read_run by trivial;
      rewrite Hi; reflexivity.
  - destruct fuel as [|f]; [simpl in Hf; lia|].
    simpl. unfold bind. rewrite sock_read_run by trivial. rewrite Hi. simpl.
    destruct (Z.land b 128 =? 0); [reflexivity|].
    erewrite IH with (m := set_inbound r m); [|trivial|reflexivity|simpl in Hf; lia].
    now destruct (decode_len r _ _) as [[v rest]|].
Qed.

Lemma recv_len_run m :
  _sock (self m) = true ->
  _recv_len m =
    match decode_len (inbound m) 0 0 with
    | Some (v, rest) => (Ok v, set_inbound rest m)
    | None => (Raise IndexError, set_inbound [] m)
    end.
Proof. intros Hs. unfold _recv_len. now apply recv_len_loop_run. Qed.

(** Bits. *)
Lemma low7_high (sz : Z) :
  Z.lor (Z.land sz 0x7f) (Z.shiftl (Z.shiftr sz 7) 7) = sz.
Proof.
  apply Z.bits_inj'. intros n Hn.
  rewrite Z.lor_spec, Z.land_spec. change 0x7f with (Z.ones 7).
  destruct (Z.ltb_spec n 7).
  - rewrite Z.ones_spec_low, Z.shiftl_spec_low by lia.
    now rewrite andb_true_r, orb_false_r.
  - rewrite Z.ones_spec_high, Z.shiftl_spec, Z.shiftr_spec by lia.
    rewrite andb_false_r. simpl. f_equal. lia.
Qed.

Lemma lor_shift_step (acc sz sh : Z) :
  0 <= sh ->
  Z.lor (Z.lor acc (Z.shiftl (Z.land sz 0x7f) sh))
        (Z.shiftl (Z.shiftr sz 7) (sh + 7))
  = Z.lor acc (Z.shiftl sz sh).
Proof.
  intros Hsh.
  rewrite <- Z.lor_assoc. f_equal.
  replace (sh + 7) with (7 + sh) by lia.
  rewrite <- Z.shiftl_shiftl by lia.
  rewrite <- Z.shiftl_lor. now rewrite low7_high.
Qed.

Lemma cont_byte_low (sz : Z) :
  Z.land (Z.lor (Z.land sz 0x7f) 0x80) 0x7f = Z.land sz 0x7f.
Proof.
  rewrite Z.land_lor_distr_l, <- Z.land_assoc.
  change (Z.land 0x7f 0x7f) with 0x7f. change (Z.land 0x80 0x7f) with 0.
  apply Z.lor_0_r.
Qed.

Lemma cont_byte_flag (sz : Z) :
  (Z.land (Z.lor (Z.land sz 0x7f) 0x80) 0x80 =? 0) = false.
Proof.
  apply Z.eqb_neq. rewrite Z.land_lor_distr_l.
  change (Z.land 0x80 0x80) with 0x80.
  intros H. apply Z.lor_eq_0_iff in H as [_ H]. discriminate.
Qed.

Lemma last_byte_low (sz : Z) : 0 <= sz <= 0x7f -> Z.land sz 0x7f = sz.
Proof.
  intros H. change 0x7f with (Z.ones 7). rewrite Z.land_ones by lia.
  apply Z.mod_small. lia.
Qed.

Lemma last_byte_flag (sz : Z) : 0 <= sz <= 0x7f -> (Z.land sz 0x80 =? 0) = true.
Proof.
  intros H. apply Z.eqb_eq. apply Z.bits_inj'. intros n Hn.
  rewrite Z.land_spec, Z.bits_0. change 0x80 with (2 ^ 7).
  rewrite Z.pow2_bits_eqb by lia.
  destruct (Z.eqb_spec 7 n) as [<-|]; [|apply andb_false_r].
  rewrite andb_true_r.
  destruct (Z.eq_dec sz 0) as [->|]; [apply Z.bits_0|].
  apply Z.bits_above_log2; [lia|].
  apply Z.log2_lt_pow2; lia.
Qed.

Lemma buf_get_set b v g : buf_get b (buf_set b v g) = v.
Proof. now destruct b. Qed.

Lemma buf_store_Ok b i v m m' :
  buf_store b i v m = (Ok tt, m') ->
  (i < length (buf_get b (glob m)))%nat
  /\ is_byte v = true
  /\ m' = set_glob (buf_set b (<[i := v]> (buf_get b (glob m))) (glob m)) m.
Proof.
  unfold buf_store, bind, get_glob, setitem. simpl.
  destruct (Nat.ltb_spec i (length (buf_get b (glob m)))) as [Hi|Hi]; simpl;
    [|discriminate].
  destruct (is_byte v); simpl; [|discriminate].
  intros E. injection E as <-. auto.
Qed.

Lemma seg_one (buf : bytes) i v : buf !! i = Some v -> seg buf i i = [v].
Proof.
  intros H. unfold seg. rewrite (drop_S _ _ _ H).
  replace (S i - i)%nat with 1%nat by lia. reflexivity.
Qed.

Lemma seg_cons (buf : bytes) i k v :
  buf !! i = Some v -> (S i <= k)%nat -> seg buf i k = v :: seg buf (S i) k.
Proof.
  intros H Hk. unfold seg. rewrite (drop_S _ _ _ H).
  replace (S k - i)%nat with (S (S k - S i)) by lia. reflexivity.
Qed.

(** What a completed run of the loop leaves in the buffer: the bytes below
    the start index are untouched, and the bytes from the start index to the
    index it answers decode to [sz]. *)
Lemma length_loop_spec pkt fuel : forall sz i m k m',
  0 <= sz ->
  length_loop fuel pkt sz i m = (Ok k, m') ->
  (i <= k)%nat
  /\ (forall j, (j < i)%nat ->
        buf_get pkt (glob m') !! j = buf_get pkt (glob m) !! j)
  /\ forall rest acc sh, 0 <= sh ->
       decode_len (seg (buf_get pkt (glob m')) i k ++ rest) acc sh
       = Some (Z.lor acc (Z.shiftl sz sh), rest).
Proof.
  induction fuel as [|f IH]; intros sz i m k m' Hsz H.
  - simpl in H. destruct (Z.ltb_spec 0x7f sz) as [Hgt|Hle]; [discriminate|].
    apply bind_inv_Ok in H as ([] & m1 & Hst & Hr). injection Hr as <- <-.
    apply buf_store_Ok in Hst as (Hi & _ & ->). simpl. rewrite buf_get_set.
    split; [lia|]. split.
    + intros j Hj. apply list_lookup_insert_ne. lia.
    + intros rest acc sh Hsh.
      rewrite (seg_one _ i sz) by now apply list_lookup_insert_eq.
      simpl. rewrite last_byte_flag, last_byte_low by lia. reflexivity.
  - simpl in H. destruct (Z.ltb_spec 0x7f sz) as [Hgt|Hle].
    + apply bind_inv_Ok in H as ([] & m1 & Hst & Hr).
      apply buf_store_Ok in Hst as (Hi & _ & ->).
      apply IH in Hr as (Hk & Hlow & Hdec); [|apply Z.shiftr_nonneg; lia].
      simpl in Hlow. rewrite buf_get_set in Hlow.
      split; [lia|]. split.
      * intros j Hj. rewrite Hlow by lia. apply list_lookup_insert_ne. lia.
      * intros rest acc sh Hsh.
        rewrite (seg_cons _ i k (Z.lor (Z.land sz 0x7f) 0x80)); [|now rewrite Hlow by lia; apply list_lookup_insert_eq|lia].
        simpl. rewrite cont_byte_flag, cont_byte_low.
        rewrite Hdec by lia. now rewrite lor_shift_step.
    + apply bind_inv_Ok in H as ([] & m1 & Hst & Hr). injection Hr as <- <-.
      apply buf_store_Ok in Hst as (Hi & _ & ->). simpl. rewrite buf_get_set.
      split; [lia|]. split.
      * intros j Hj. apply list_lookup_insert_ne. lia.
      * intros rest acc sh Hsh.
        rewrite (seg_one _ i sz) by now apply list_lookup_insert_eq.
        simpl. rewrite last_byte_flag, last_byte_low by lia. reflexivity.
Qed.

(** The loop always ends within its bound. *)
Lemma buf_store_fuel b i v m : fst (buf_store b i v m) <> OutOfFuel.
Proof.
  unfold buf_store, bind, get_glob, lift. simpl.
  destruct (setitem _ _ _); discriminate.
Qed.

Lemma length_loop_fuel pkt fuel : forall sz i m,
  Z.log2 sz < Z.of_nat fuel + 7 ->
  fst (length_loop fuel pkt sz i m) <> OutOfFuel.
Proof.
  induction fuel as [|f IH]; intros sz i m Hf; simpl;
    destruct (Z.ltb_spec 0x7f sz) as [Hgt|Hle].
  - assert (7 <= Z.log2 sz) by (apply Z.log2_le_pow2; lia). lia.
  - unfold bind. pose proof (buf_store_fuel pkt i sz m) as Hb.
    destruct (buf_store pkt i sz m) as [[[]|e| | ] m1]; simpl in *;
      congruence.
  - unfold bind.
    pose proof (buf_store_fuel pkt i (Z.lor (Z.land sz 127) 128) m) as Hb.
    destruct (buf_store pkt i _ m) as [[[]|e| | ] m1]; simpl in *;
      try congruence.
    apply IH. rewrite Z.log2_shiftr by lia. lia.
  - unfold bind. pose proof (buf_store_fuel pkt i sz m) as Hb.
    destruct (buf_store pkt i sz m) as [[[]|e| | ] m1]; simpl in *;
      congruence.
Qed.

Lemma encode_remaining_length_fuel pkt sz m :
  fst (encode_remaining_length pkt sz m) <> OutOfFuel.
Proof.
  apply length_loop_fuel.
  destruct (Z.le_gt_cases 0 (Z.log2 sz)); [|lia].
  rewrite Z2Nat.id; lia.
Qed.

(** Where the encoder loop completes on [n] in a packet buffer, the length
    bytes it stored, [pkt[1 .. i]], read back through [_recv_len] give [n]
    and leave what follows them unread. *)
Lemma recv_len_reads_back
    (pkt : buffer) (n : Z) (m m' : machine) (k : nat)
    (reader : machine) (rest : bytes) :
  0 <= n ->
  encode_remaining_length pkt n m = (Ok k, m') ->
  _sock (self reader) = true ->
  inbound reader = seg (buf_get pkt (glob m')) 1 k ++ rest ->
  _recv_len reader = (Ok n, set_inbound rest reader).
Proof.
  intros Hn Henc Hs Hi.
  apply length_loop_spec in Henc as (_ & _ & Hdec); [|lia].
  rewrite recv_len_run by trivial.
  rewrite Hi, (Hdec rest 0 0) by lia.
  now rewrite Z.shiftl_0_r.
Qed.

(** C4. The round trip fails in [publish] at n = 200, a value of the range
    0..268435455: the buffer [MQTT_PUB] the loop of [publish] stores into has two
    bytes, one for the header and one for the length, so the loop has no
    room for the second length byte of 200 and ends in IndexError; there
    are no encoded bytes to read back. [publish] of a 197-byte payload under
    the topic [t], whose remaining length is 200, ends in that IndexError
    with nothing written. *)
Theorem remaining_length_200_IndexError :
  0 <= 200 <= 268435455
  /\ fst (encode_remaining_length PUB 200 (online [])) = Raise IndexError
  /\ fst (publish [116] (MsgStr (repeat 97 197)) false 0 (online []))
     = Raise IndexError
  /\ trace (snd (publish [116] (MsgStr (repeat 97 197)) false 0 (online [])))
     = [].
Proof. split; [lia|]. repeat split; reflexivity. Qed.

(** ** Running the methods on a connected client *)

(** A run is followed one step at a time: the first computation of a [bind]
    is run by a lemma about it, the rest goes on from the machine it left. *)
Lemma run_bind {A B} (c : M A) (k : A -> M B) m a m1 r :
  c m = (Ok a, m1) -> k a m1 = r -> bind c k m = r.
Proof. intros H <-. now apply bind_Ok. Qed.

Lemma run_bind_raise {A B} (c : M A) (k : A -> M B) m e m1 :
  c m = (Raise e, m1) -> bind c k m = (Raise e, m1).
Proof. apply bind_Raise. Qed.

Lemma ret_run {A} (a : A) m : ret a m = (Ok a, m).
Proof. reflexivity. Qed.

Lemma lift_run {A} (r : res A) a m : r = inr a -> lift r m = (Ok a, m).
Proof. now intros ->. Qed.

Lemma assert_run b m : b = true -> assert b m = (Ok tt, m).
Proof. now intros ->. Qed.

Lemma get_self_run m : get_self m = (Ok (self m), m).
Proof. reflexivity. Qed.

Lemma get_glob_run m : get_glob m = (Ok (glob m), m).
Proof. reflexivity. Qed.

Lemma put_glob_run g m : put_glob g m = (Ok tt, set_glob g m).
Proof. reflexivity. Qed.

Lemma modify_self_run f m : modify_self f m = (Ok tt, set_self (f (self m)) m).
Proof. reflexivity. Qed.

Lemma act_run a m : act a m = (Ok tt, emit a m).
Proof. reflexivity. Qed.

Lemma the_sock_run m : _sock (self m) = true -> the_sock m = (Ok tt, m).
Proof. intros Hs. unfold the_sock, get_self, bind. now rewrite Hs. Qed.

Lemma callback_run slot a m :
  callback slot a m = (Ok tt, if slot (self m) then emit a m else m).
Proof. unfold callback, get_self, bind, when. simpl. now destruct (slot (self m)). Qed.

Lemma is_connected_run m : connected m -> is_connected m = (Ok true, m).
Proof.
  intros [Hs Hc]. unfold is_connected.
  eapply run_bind; [now apply the_sock_run|].
  eapply run_bind; [apply get_self_run|]. now rewrite Hc.
Qed.

Lemma valid_topic_inv t :
  valid_topic t = true ->
  (len t =? 0) = false
  /\ exists enc, str_encode t = inr enc
                 /\ (MQTT_TOPIC_LENGTH_LIMIT <? len enc) = false.
Proof.
  unfold valid_topic. intros H. apply andb_true_iff in H as [H1 H2].
  split; [now apply negb_true_iff|].
  destruct (str_encode t) as [|enc]; [discriminate|].
  exists enc. split; [reflexivity|]. apply Z.ltb_ge. now apply Z.leb_le.
Qed.

Lemma check_topic_run t m :
  valid_topic t = true -> _check_topic (Some t) m = (Ok tt, m).
Proof.
  intros H. apply valid_topic_inv in H as (H0 & enc & He & Hl).
  unfold _check_topic. rewrite H0.
  eapply run_bind; [apply lift_run; eassumption|]. now rewrite Hl.
Qed.

Lemma sock_write_run bs m :
  _sock (self m) = true -> sock_write bs m = (Ok tt, emit (SockWrite bs) m).
Proof.
  intros Hs. unfold sock_write.
  eapply run_bind; [now apply the_sock_run|]. reflexivity.
Qed.

Lemma pack_H_run n : 0 <= n <= 65535 -> pack_H n = inr (be_digits 2 n).
Proof.
  intros H. unfold pack_H.
  destruct (Z.ltb_spec n 0); [lia|]. destruct (Z.ltb_spec 65535 n); [lia|].
  reflexivity.
Qed.

Lemma len_nonneg {A} (l : list A) : 0 <= len l.
Proof. unfold len. lia. Qed.

(** What [_send_str] puts on the wire: the number of characters of the
    string as the prefix, then its UTF-8 bytes. *)
Lemma send_str_run s enc m :
  _sock (self m) = true -> len s <= 65535 -> str_encode s = inr enc ->
  _send_str (Some s) m
  = (Ok tt, emit (SockWrite enc) (emit (SockWrite (be_digits 2 (len s))) m)).
Proof.
  intros Hs Hl He. unfold _send_str.
  eapply run_bind; [now apply the_sock_run|].
  eapply run_bind.
  { apply lift_run, pack_H_run. pose proof (len_nonneg s). lia. }
  eapply run_bind; [now apply sock_write_run|].
  eapply run_bind; [apply lift_run; eassumption|].
  now apply sock_write_run.
Qed.

(** Past 65535 characters the prefix cannot be packed: the call ends in the
    error of [struct.pack], with nothing written. *)
Lemma send_str_too_long s m :
  _sock (self m) = true -> 65535 < len s ->
  _send_str (Some s) m = (Raise StructError, m).
Proof.
  intros Hs Hl. unfold _send_str.
  eapply run_bind; [now apply the_sock_run|].
  apply run_bind_raise. unfold pack_H.
  destruct (Z.ltb_spec 65535 (len s)); [|lia].
  now rewrite orb_true_r.
Qed.

(** An ASCII string is its own encoding. *)
Lemma str_encode_ascii s :
  forallb (fun c => (0 <=? c) && (c <? 128)) s = true -> str_encode s = inr s.
Proof.
  induction s as [|c s IH]; simpl; [reflexivity|].
  intros H. apply andb_true_iff in H as [Hc Hs].
  apply andb_true_iff in Hc as [H0 H1].
  apply Z.leb_le in H0. apply Z.ltb_lt in H1.
  rewrite (IH Hs). unfold utf8_encode_cp.
  destruct (Z.ltb_spec c 0); [lia|].
  destruct (Z.ltb_spec c 128); [reflexivity|lia].
Qed.

(** C7. [_send_str] on the one-character string U+00E9, whose UTF-8 form
    has two bytes: the prefix written is [00 01], the number of characters
    of the string, and the two bytes follow. *)
Theorem send_str_prefix_counts_characters :
  str_encode [233] = inr [0xC3; 0xA9]
  /\ len [0xC3; 0xA9] = 2
  /\ _send_str (Some [233]) (online [])
     = (Ok tt, emit (SockWrite [0xC3; 0xA9]) (emit (SockWrite [0; 1]) (online []))).
Proof. repeat split; reflexivity. Qed.

(** ** [publish] *)

Lemma lor_is_byte a b :
  is_byte a = true -> is_byte b = true -> is_byte (Z.lor a b) = true.
Proof.
  unfold is_byte. intros Ha Hb.
  apply andb_true_iff in Ha as [Ha0 Ha1]. apply andb_true_iff in Hb as [Hb0 Hb1].
  apply Z.leb_le in Ha0, Ha1, Hb0, Hb1.
  apply andb_true_iff. split; apply Z.leb_le.
  - apply Z.lor_nonneg. lia.
  - destruct (Z.eq_dec (Z.lor a b) 0) as [->|Hne]; [lia|].
    assert (Hpos : 0 < Z.lor a b)
      by (assert (0 <= Z.lor a b) by (apply Z.lor_nonneg; lia); lia).
    assert (Z.lor a b < 2 ^ 8); [|lia].
    apply Z.log2_lt_pow2; [exact Hpos|].
    rewrite Z.log2_lor by lia.
    apply Z.max_lub_lt.
    + destruct (Z.eq_dec a 0) as [->|]; [reflexivity|].
      apply Z.log2_lt_pow2; lia.
    + destruct (Z.eq_dec b 0) as [->|]; [reflexivity|].
      apply Z.log2_lt_pow2; lia.
Qed.

Lemma buf_store_run b i v m :
  (i < length (buf_get b (glob m)))%nat -> is_byte v = true ->
  buf_store b i v m
  = (Ok tt, set_glob (buf_set b (<[i := v]> (buf_get b (glob m))) (glob m)) m).
Proof.
  intros Hi Hv. unfold buf_store.
  eapply run_bind; [apply get_glob_run|].
  eapply run_bind; [|apply put_glob_run].
  apply lift_run. unfold setitem.
  destruct (Nat.ltb_spec i (length (buf_get b (glob m)))); [|lia].
  now rewrite Hv.
Qed.

Lemma buf_or_run b i old v m :
  buf_get b (glob m) !! i = Some old -> is_byte (Z.lor old v) = true ->
  buf_or b i v m
  = (Ok tt,
     set_glob (buf_set b (<[i := Z.lor old v]> (buf_get b (glob m))) (glob m)) m).
Proof.
  intros Hold Hv. unfold buf_or, buf_load.
  eapply run_bind.
  { eapply run_bind; [apply get_glob_run|].
    apply lift_run. unfold getitem. now rewrite Hold. }
  apply buf_store_run; [|exact Hv].
  now apply lookup_lt_Some in Hold.
Qed.

(** The flag bits [publish] ors into the first byte. *)
Lemma publish_flags_byte qos retain :
  0 <= qos <= 2 -> is_byte (Z.lor (Z.shiftl qos 1) (bool_int retain)) = true.
Proof.
  intros H. assert (qos = 0 \/ qos = 1 \/ qos = 2) as [->|[->| ->]] by lia;
    now destruct retain.
Qed.

Lemma no_wildcard_inv t :
  no_wildcard t = true -> contains_char 43 t || contains_char 35 t = false.
Proof. unfold no_wildcard. apply negb_true_iff. Qed.

(** The checks of [publish] pass: the call continues from the remaining
    length. *)
Ltac publish_checks Hc Hpub Hh Hvt Hnw Hmsg Hsz Hq :=
  unfold publish;
  eapply run_bind; [now apply is_connected_run|]; cbv beta;
  eapply run_bind; [now apply check_topic_run|]; cbv beta;
  rewrite (no_wildcard_inv _ Hnw);
  eapply run_bind; [apply ret_run|]; cbv beta;
  eapply run_bind; [apply lift_run; exact Hmsg|]; cbv beta;
  match goal with
  | |- context [MQTT_MSG_MAX_SZ <? ?x] =>
      destruct (Z.ltb_spec MQTT_MSG_MAX_SZ x); [lia|]
  end;
  eapply run_bind; [apply ret_run|]; cbv beta;
  match goal with
  | |- context [(?q <? 0) || (2 <? ?q)] =>
      destruct (Z.ltb_spec q 0); [lia|];
      destruct (Z.ltb_spec 2 q); [lia|]
  end;
  simpl orb; cbv iota;
  eapply run_bind; [apply ret_run|]; cbv beta;
  eapply run_bind;
    [ eapply buf_or_run;
      [ simpl buf_get; rewrite Hpub; reflexivity
      | apply lor_is_byte; [exact Hh | now apply publish_flags_byte] ]
    |]; cbv beta;
  simpl buf_get; rewrite Hpub; simpl (insert _ _ _);
  match goal with
  | |- context [set_glob (buf_set PUB [Z.lor ?h ?f; ?l] (glob ?m)) ?m] =>
      match f with
      | Z.lor (Z.shiftl ?qos 1) (bool_int ?retain) =>
          change (set_glob (buf_set PUB [Z.lor h f; l] (glob m)) m)
            with (flagged h l retain qos m)
      end
  end.

Lemma publish_assert_fails topic msg retain qos payload m h l :
  connected m ->
  MQTT_PUB (glob m) = [h; l] -> is_byte h = true ->
  valid_topic topic = true -> no_wildcard topic = true ->
  coerce_msg msg = inr payload -> len payload <= MQTT_MSG_MAX_SZ ->
  0 <= qos <= 2 ->
  2097152 <= publish_sz topic payload qos ->
  publish topic msg retain qos m
  = (Raise AssertionError, flagged h l retain qos m).
Proof.
  intros Hc Hpub Hh Hvt Hnw Hmsg Hsz Hq Hbig.
  publish_checks Hc Hpub Hh Hvt Hnw Hmsg Hsz Hq.
  apply run_bind_raise.
  destruct (Z.ltb_spec (publish_sz topic payload qos) 2097152); [lia|].
  reflexivity.
Qed.

(** C9. On a connected client, with a topic and a message that pass the
    checks of [publish] (the payload is at most 268435455 bytes): when the
    remaining length is 2097152 or more the call ends in an assertion
    failure and nothing has been written to the transport; so a call that
    writes anything has a remaining length below 2097152. *)
Theorem publish_length_assertion
    (topic : pystr) (msg : pymsg) (retain : bool) (qos : Z)
    (payload : bytes) (m : machine) (h l : Z) :
  connected m ->
  MQTT_PUB (glob m) = [h; l] -> is_byte h = true ->
  valid_topic topic = true -> no_wildcard topic = true ->
  coerce_msg msg = inr payload -> len payload <= MQTT_MSG_MAX_SZ ->
  0 <= qos <= 2 ->
  (2097152 <= publish_sz topic payload qos ->
     fst (publish topic msg retain qos m) = Raise AssertionError
     /\ trace (snd (publish topic msg retain qos m)) = trace m)
  /\ (trace (snd (publish topic msg retain qos m)) <> trace m ->
      publish_sz topic payload qos < 2097152).
Proof.
  intros Hc Hpub Hh Hvt Hnw Hmsg Hsz Hq.
  assert (A : 2097152 <= publish_sz topic payload qos ->
              fst (publish topic msg retain qos m) = Raise AssertionError
              /\ trace (snd (publish topic msg retain qos m)) = trace m).
  { intros Hbig.
    rewrite (publish_assert_fails topic msg retain qos payload m h l); auto. }
  split; [exact A|].
  intros Hw. destruct (Z.lt_ge_cases (publish_sz topic payload qos) 2097152) as [|Hbig];
    [assumption|].
  destruct (A Hbig) as [_ Ht]. contradiction.
Qed.

Lemma str_encode_repeat_a n : str_encode (repeat 97 n) = inr (repeat 97 n).
Proof. induction n as [|n IH]; simpl; [reflexivity|]. now rewrite IH. Qed.

Lemma len_repeat {A} (x : A) n : len (repeat x n) = Z.of_nat n.
Proof. unfold len. now rewrite repeat_length. Qed.

(** [publish("t", "a" * 2097152)]: the payload passes the size check, the
    remaining length is 2097155, the call ends in [AssertionError] with an
    empty trace. *)
Lemma publish_length_assertion_witness :
  connected (online []) /\
  MQTT_PUB (glob (online [])) = [0x30; 0] /\ is_byte 0x30 = true /\
  valid_topic [116] = true /\ no_wildcard [116] = true /\
  coerce_msg (MsgStr (repeat 97 (Z.to_nat 2097152)))
    = inr (repeat 97 (Z.to_nat 2097152)) /\
  len (repeat 97 (Z.to_nat 2097152)) <= MQTT_MSG_MAX_SZ /\
  0 <= 0 <= 2 /\
  2097152 <= publish_sz [116] (repeat 97 (Z.to_nat 2097152)) 0 /\
  fst (publish [116] (MsgStr (repeat 97 (Z.to_nat 2097152))) false 0 (online []))
    = Raise AssertionError /\
  trace (snd (publish [116] (MsgStr (repeat 97 (Z.to_nat 2097152))) false 0
                (online [])))
    = trace (online []).
Proof.
  assert (Hmsg : coerce_msg (MsgStr (repeat 97 (Z.to_nat 2097152)))
                 = inr (repeat 97 (Z.to_nat 2097152)))
    by apply str_encode_repeat_a.
  assert (Hlen : len (repeat 97 (Z.to_nat 2097152)) <= MQTT_MSG_MAX_SZ)
    by (rewrite len_repeat; unfold MQTT_MSG_MAX_SZ; lia).
  assert (Hbig : 2097152 <= publish_sz [116] (repeat 97 (Z.to_nat 2097152)) 0).
  { unfold publish_sz. rewrite len_repeat.
    change (0 <? 0) with false. cbv iota. change (len [116]) with 1. lia. }
  destruct (publish_length_assertion [116]
              (MsgStr (repeat 97 (Z.to_nat 2097152))) false 0
              (repeat 97 (Z.to_nat 2097152)) (online []) 0x30 0)
    as [HA _];
    [split; reflexivity | reflexivity | reflexivity | reflexivity | reflexivity
    | exact Hmsg | exact Hlen | lia |].
  destruct (HA Hbig) as [H1 H2].
  split; [split; reflexivity|]. split; [reflexivity|]. split; [reflexivity|].
  split; [reflexivity|]. split; [reflexivity|]. split; [exact Hmsg|].
  split; [exact Hlen|]. split; [lia|]. split; [exact Hbig|].
  split; [exact H1 | exact H2].
Defined.

(** A remaining length below 128 takes the one turn-free store. *)
Lemma encode_small_run pkt sz m :
  0 <= sz <= 0x7f -> (1 < length (buf_get pkt (glob m)))%nat ->
  encode_remaining_length pkt sz m
  = (Ok 1%nat,
     set_glob (buf_set pkt (<[1%nat := sz]> (buf_get pkt (glob m))) (glob m)) m).
Proof.
  intros Hsz Hl. unfold encode_remaining_length.
  assert (E : forall fuel, length_loop fuel pkt sz 1 m
              = (buf_store pkt 1 sz >> ret 1%nat) m).
  { intros [|f]; simpl; destruct (Z.ltb_spec 0x7f sz); try lia; reflexivity. }
  rewrite E. eapply run_bind; [|reflexivity].
  apply buf_store_run; [exact Hl|].
  unfold is_byte. apply andb_true_iff. split; apply Z.leb_le; lia.
Qed.

Lemma pack_into_H_run h l pid :
  0 <= pid <= 65535 -> pack_into_H [h; l] 0 pid = inr (be_digits 2 pid).
Proof.
  intros H. unfold pack_into_H. rewrite pack_H_run by exact H.
  simpl. now rewrite ?app_nil_r.
Qed.

(** The characters of a string are at most the bytes of its encoding. *)
Lemma len_le_encoded s enc : str_encode s = inr enc -> len s <= len enc.
Proof.
  revert enc. induction s as [|c s IH]; intros enc; simpl.
  - intros H. injection H as <-. reflexivity.
  - destruct (utf8_encode_cp c) as [bs|] eqn:Ec; [|discriminate].
    destruct (str_encode s) as [|r]; [discriminate|].
    intros H. injection H as <-. specialize (IH r eq_refl).
    assert (1 <= len bs).
    { unfold utf8_encode_cp in Ec.
      repeat match type of Ec with
             | (if ?b then _ else _) = _ => destruct b
             end; try discriminate; injection Ec as <-; unfold len; simpl; lia. }
    unfold len in *. rewrite length_app. simpl length. lia.
Qed.

Lemma publish_sends topic enc msg retain qos payload m h l :
  connected m ->
  MQTT_PUB (glob m) = [h; l] -> is_byte h = true ->
  valid_topic topic = true -> no_wildcard topic = true ->
  str_encode topic = inr enc ->
  coerce_msg msg = inr payload ->
  1 <= qos <= 2 ->
  publish_sz topic payload qos <= 127 ->
  0 <= _pid (self m) + 1 <= 65535 ->
  publish topic msg retain qos m
  = (if qos =? 1 then forever (puback_turn (_pid (self m) + 1))
     else assert false)
      (published h topic enc payload retain qos m).
Proof.
  intros Hc Hpub Hh Hvt Hnw Henc Hmsg Hq Hsz Hpid.
  assert (Hszpos : 4 <= publish_sz topic payload qos).
  { unfold publish_sz. destruct (Z.ltb_spec 0 qos); [|lia].
    pose proof (len_nonneg topic). pose proof (len_nonneg payload). lia. }
  assert (Hlt : len topic <= 65535).
  { unfold publish_sz in Hsz. destruct (Z.ltb_spec 0 qos); [|lia].
    pose proof (len_nonneg payload). lia. }
  assert (Hlp : len payload <= MQTT_MSG_MAX_SZ).
  { unfold publish_sz in Hsz. destruct (Z.ltb_spec 0 qos); [|lia].
    pose proof (len_nonneg topic). unfold MQTT_MSG_MAX_SZ. lia. }
  destruct Hc as [Hs Hcon].
  assert (Hc : connected m) by (split; assumption).
  publish_checks Hc Hpub Hh Hvt Hnw Hmsg Hlp Hq.
  eapply run_bind.
  { apply assert_run. apply Z.ltb_lt. lia. }
  cbv beta. eapply run_bind.
  { apply encode_small_run; [lia|]. simpl. lia. }
  cbv beta. eapply run_bind; [reflexivity|]. cbv beta.
  eapply run_bind; [now apply sock_write_run|]. cbv beta.
  eapply run_bind; [now apply send_str_run with (enc := enc)|]. cbv beta.
  destruct (Z.eqb_spec qos 0); [lia|].
  eapply run_bind; [apply ret_run|]. cbv beta.
  destruct (Z.ltb_spec 0 qos); [|lia].
  eapply run_bind.
  { eapply run_bind; [apply modify_self_run|]. cbv beta.
    eapply run_bind; [apply get_self_run|]. cbv beta.
    eapply run_bind; [apply get_glob_run|]. cbv beta.
    eapply run_bind.
    { apply lift_run. simpl. apply pack_into_H_run. exact Hpid. }
    cbv beta.
    eapply run_bind; [apply put_glob_run|]. cbv beta.
    eapply run_bind; [now apply sock_write_run|]. cbv beta.
    eapply run_bind; [apply callback_run|]. cbv beta.
    apply ret_run. }
  cbv beta.
  eapply run_bind.
  { apply sock_write_run. simpl. now destruct (on_publish (self m)). }
  cbv beta.
  match goal with
  | |- _ ?m1 = _ ?m2 => assert (Em : m1 = m2)
  end.
  { unfold published, flagged. destruct m as [c g i lk tr]. simpl in *.
    destruct g as [pu co ch]. simpl in *. subst pu.
    destruct (on_publish c); simpl; unfold emit; simpl;
      repeat rewrite <- app_assoc; reflexivity. }
  rewrite Em.
  assert (qos = 1 \/ qos = 2) as [-> | ->] by lia; simpl Z.eqb; cbv iota.
  - reflexivity.
  - reflexivity.
Qed.

(** [publish] with [qos > 0] once the packet id counter has left the range
    of two bytes: [pack_into] fails after the header and the topic have been
    written. *)
Lemma publish_id_overflow topic enc msg retain qos payload m h l :
  connected m ->
  MQTT_PUB (glob m) = [h; l] -> is_byte h = true ->
  valid_topic topic = true -> no_wildcard topic = true ->
  str_encode topic = inr enc ->
  coerce_msg msg = inr payload ->
  1 <= qos <= 2 ->
  publish_sz topic payload qos <= 127 ->
  _pid (self m) + 1 < 0 \/ 65535 < _pid (self m) + 1 ->
  publish topic msg retain qos m
  = (Raise StructError, id_overflow h topic enc payload retain qos m).
Proof.
  intros Hc Hpub Hh Hvt Hnw Henc Hmsg Hq Hsz Hpid.
  assert (Hszpos : 4 <= publish_sz topic payload qos).
  { unfold publish_sz. destruct (Z.ltb_spec 0 qos); [|lia].
    pose proof (len_nonneg topic). pose proof (len_nonneg payload). lia. }
  assert (Hlt : len topic <= 65535).
  { unfold publish_sz in Hsz. destruct (Z.ltb_spec 0 qos); [|lia].
    pose proof (len_nonneg payload). lia. }
  assert (Hlp : len payload <= MQTT_MSG_MAX_SZ).
  { unfold publish_sz in Hsz. destruct (Z.ltb_spec 0 qos); [|lia].
    pose proof (len_nonneg topic). unfold MQTT_MSG_MAX_SZ. lia. }
  destruct Hc as [Hs Hcon].
  assert (Hc : connected m) by (split; assumption).
  publish_checks Hc Hpub Hh Hvt Hnw Hmsg Hlp Hq.
  eapply run_bind.
  { apply assert_run. apply Z.ltb_lt. lia. }
  cbv beta. eapply run_bind.
  { apply encode_small_run; [lia|]. simpl. lia. }
  cbv beta. eapply run_bind; [reflexivity|]. cbv beta.
  eapply run_bind; [now apply sock_write_run|]. cbv beta.
  eapply run_bind; [now apply send_str_run with (enc := enc)|]. cbv beta.
  destruct (Z.eqb_spec qos 0); [lia|].
  eapply run_bind; [apply ret_run|]. cbv beta.
  destruct (Z.ltb_spec 0 qos); [|lia].
  apply run_bind_raise.
  eapply run_bind; [apply modify_self_run|]. cbv beta.
  eapply run_bind; [apply get_self_run|]. cbv beta.
  eapply run_bind; [apply get_glob_run|]. cbv beta.
  apply run_bind_raise.
  assert (Hpack : forall buf, pack_into_H buf 0 (_pid (self m) + 1) = inl StructError).
  { intros buf. unfold pack_into_H, pack_H.
    destruct (Z.ltb_spec (_pid (self m) + 1) 0);
      destruct (Z.ltb_spec 65535 (_pid (self m) + 1)); simpl; try reflexivity.
    lia. }
  simpl. rewrite Hpack. simpl. f_equal.
  unfold id_overflow, flagged. destruct m as [c g i lk tr]. simpl in *.
  destruct g as [pu co ch]. simpl in *. subst pu.
  unfold emit; simpl; repeat rewrite <- app_assoc; reflexivity.
Qed.

Lemma written_app a b : written (a ++ b) = written a ++ written b.
Proof. unfold written. apply flat_map_app. Qed.

(** C3, as the code has it. [publish] with [qos=2] on a connected client,
    for a topic and a message that pass its checks and a remaining length
    that fits the length byte, never returns and never raises the library's
    exception, and it has always written to the transport when it fails.
    While the next packet id fits two bytes the call ends in the
    AssertionError of [assert 0], after the whole PUBLISH packet has been
    written: header with length, topic, packet id, payload. Once the packet
    id counter has reached 65535 the next id does not fit: the call ends in
    the error of [struct.pack_into], after the header and the topic have
    been written. *)
Theorem publish_qos2_asserts_after_writing
    (topic : pystr) (enc : bytes) (msg : pymsg) (retain : bool)
    (payload : bytes) (m : machine) (h l : Z) :
  connected m ->
  MQTT_PUB (glob m) = [h; l] -> is_byte h = true ->
  valid_topic topic = true -> no_wildcard topic = true ->
  str_encode topic = inr enc ->
  coerce_msg msg = inr payload ->
  publish_sz topic payload 2 <= 127 ->
  (0 <= _pid (self m) + 1 <= 65535 ->
     publish topic msg retain 2 m
       = (Raise AssertionError, published h topic enc payload retain 2 m)
     /\ written (trace (published h topic enc payload retain 2 m))
        = written (trace m)
          ++ [Z.lor h (Z.lor (Z.shiftl 2 1) (bool_int retain));
              publish_sz topic payload 2]
          ++ be_digits 2 (len topic) ++ enc
          ++ be_digits 2 (_pid (self m) + 1) ++ payload)
  /\ (_pid (self m) + 1 < 0 \/ 65535 < _pid (self m) + 1 ->
      publish topic msg retain 2 m
        = (Raise StructError, id_overflow h topic enc payload retain 2 m)
      /\ written (trace (id_overflow h topic enc payload retain 2 m))
         = written (trace m)
           ++ [Z.lor h (Z.lor (Z.shiftl 2 1) (bool_int retain));
               publish_sz topic payload 2]
           ++ be_digits 2 (len topic) ++ enc)
  /\ is_MMQTTException AssertionError = false
  /\ is_MMQTTException StructError = false.
Proof.
  intros Hc Hpub Hh Hvt Hnw Henc Hmsg Hsz.
  split; [|split; [|split; reflexivity]].
  - intros Hpid. split.
    + rewrite (publish_sends topic enc msg retain 2 payload m h l); auto; lia.
    + unfold published. cbn [trace]. rewrite !written_app.
      destruct (on_publish (self m)); simpl; rewrite ?app_nil_r;
        repeat rewrite <- app_assoc; reflexivity.
  - intros Hpid. split.
    + apply publish_id_overflow with (l := l); auto; lia.
    + unfold id_overflow. cbn [trace]. rewrite !written_app.
      simpl; rewrite ?app_nil_r; repeat rewrite <- app_assoc; reflexivity.
Qed.

(** [publish("a/b", "x", qos=2)] on a fresh connected client. *)
Lemma publish_qos2_asserts_after_writing_witness :
  connected (online []) /\
  MQTT_PUB (glob (online [])) = [0x30; 0] /\ is_byte 0x30 = true /\
  valid_topic [97; 47; 98] = true /\ no_wildcard [97; 47; 98] = true /\
  str_encode [97; 47; 98] = inr [97; 47; 98] /\
  coerce_msg (MsgStr [120]) = inr [120] /\
  publish_sz [97; 47; 98] [120] 2 <= 127 /\
  0 <= _pid (self (online [])) + 1 <= 65535 /\
  publish [97; 47; 98] (MsgStr [120]) false 2 (online [])
    = (Raise AssertionError,
       published 0x30 [97; 47; 98] [97; 47; 98] [120] false 2 (online []))
  /\ written (trace (published 0x30 [97; 47; 98] [97; 47; 98] [120] false 2
                       (online [])))
     = [0x34; 8; 0; 3; 97; 47; 98; 0; 1; 120].
Proof.
  assert (Hsz : publish_sz [97; 47; 98] [120] 2 <= 127)
    by (apply Z.leb_le; reflexivity).
  assert (Hpid : 0 <= _pid (self (online [])) + 1 <= 65535)
    by (split; apply Z.leb_le; reflexivity).
  destruct (publish_qos2_asserts_after_writing
              [97; 47; 98] [97; 47; 98] (MsgStr [120]) false [120]
              (online []) 0x30 0)
    as (Hin & _);
    [ split; reflexivity | reflexivity | reflexivity | reflexivity
    | reflexivity | reflexivity | reflexivity | exact Hsz |].
  destruct (Hin Hpid) as [Hrun Hw].
  split; [split; reflexivity|]. split; [reflexivity|]. split; [reflexivity|].
  split; [reflexivity|]. split; [reflexivity|]. split; [reflexivity|].
  split; [reflexivity|]. split; [exact Hsz|]. split; [exact Hpid|].
  split; [exact Hrun | exact Hw].
Defined.

(** The claim as the specification words it fails on [publish("a/b", "x",
    qos=2)]: the call ends in an assertion failure, and ten bytes, the whole
    PUBLISH packet, have gone to the transport. *)
Lemma publish_qos2_has_written :
  fst (publish [97; 47; 98] (MsgStr [120]) false 2 (online []))
    = Raise AssertionError
  /\ written (trace (snd (publish [97; 47; 98] (MsgStr [120]) false 2 (online []))))
     = [0x34; 8; 0; 3; 97; 47; 98; 0; 1; 120].
Proof. split; reflexivity. Qed.

(** ** The acknowledgment loop of [publish] *)


(** A poll that finds a byte outside the PUBLISH family hands it back. *)
Lemma wait_for_msg_opcode op rest m :
  _sock (self m) = true -> inbound m = op :: rest ->
  (Z.land op 0xf0 =? 0x30) = false ->
  wait_for_msg m = (Ok (Some op), set_inbound rest m).
Proof.
  intros Hs Hi Hop. unfold wait_for_msg.
  eapply run_bind; [now apply the_sock_run|]. cbv beta.
  eapply run_bind; [now apply sock_read_run|]. cbv beta.
  rewrite Hi. simpl. now rewrite Hop.
Qed.



(** ** What has been read when the loop of [publish] returns *)

#[local] Instance consumes_preorder : PreOrder consumes.
Proof.
  split.
  - intros m. now exists [].
  - intros a b c [x Hx] [y Hy]. exists (x ++ y).
    now rewrite Hx, Hy, app_assoc.
Qed.

Lemma consumes_modify_self f : keeps consumes (modify_self f).
Proof. intros m. now exists []. Qed.

Lemma consumes_put_glob g : keeps consumes (put_glob g).
Proof. intros m. now exists []. Qed.

Lemma consumes_act a : keeps consumes (act a).
Proof. intros m. now exists []. Qed.

Lemma consumes_sock_read n : keeps consumes (sock_read n).
Proof.
  unfold sock_read. keeps_step; [keeps_step|].
  intros m. exists (take (Z.to_nat n) (inbound m)). simpl.
  now rewrite take_drop.
Qed.

#[local] Hint Resolve consumes_modify_self consumes_put_glob consumes_act
  consumes_sock_read : keeps.

Lemma consumes_callback slot a : keeps consumes (callback slot a).
Proof. unfold callback. keeps_auto. Qed.

Lemma consumes_sock_write bs : keeps consumes (sock_write bs).
Proof. unfold sock_write. keeps_auto. Qed.

#[local] Hint Resolve consumes_callback consumes_sock_write : keeps.

Lemma consumes_recv_len_loop fuel n sh :
  keeps consumes (_recv_len_loop fuel n sh).
Proof.
  revert n sh. induction fuel as [|f IH]; intros n sh; simpl; keeps_auto.
  intros m. reflexivity.
Qed.

Lemma consumes_recv_len : keeps consumes _recv_len.
Proof. intros m. unfold _recv_len. apply consumes_recv_len_loop. Qed.
#[local] Hint Resolve consumes_recv_len : keeps.

Lemma consumes_wait_for_msg : keeps consumes wait_for_msg.
Proof. unfold wait_for_msg. keeps_auto. Qed.
#[local] Hint Resolve consumes_wait_for_msg : keeps.






Lemma after_same m : after m (inbound m) [] = m.
Proof. destruct m. unfold after. simpl. now rewrite app_nil_r. Qed.

(** On a silent transport the poll times out and a turn of any of the three
    acknowledgment loops changes nothing and asks to go round again. *)
Lemma wait_for_msg_silent m :
  _sock (self m) = true -> inbound m = [] -> wait_for_msg m = (Ok None, m).
Proof.
  intros Hs Hi. unfold wait_for_msg.
  eapply run_bind; [now apply the_sock_run|]. cbv beta.
  eapply run_bind; [now apply sock_read_run|]. cbv beta.
  rewrite Hi. simpl. destruct m. simpl in *. now subst.
Qed.


Lemma suback_turn_silent packet topics m :
  _sock (self m) = true -> inbound m = [] ->
  suback_turn packet topics m = (Ok None, m).
Proof.
  intros Hs Hi. unfold suback_turn.
  eapply run_bind; [now apply wait_for_msg_silent|]. reflexivity.
Qed.

Lemma unsuback_turn_silent pib topics m :
  _sock (self m) = true -> inbound m = [] ->
  unsuback_turn pib topics m = (Ok None, m).
Proof.
  intros Hs Hi. unfold unsuback_turn.
  eapply run_bind; [now apply wait_for_msg_silent|]. reflexivity.
Qed.







(** ** [subscribe] and [unsubscribe] *)

Lemma to_bytes_run n k :
  0 <= n < 2 ^ (8 * Z.of_nat k) -> to_bytes n k = inr (be_digits k n).
Proof.
  intros H. unfold to_bytes.
  destruct (Z.ltb_spec n 0); [lia|].
  destruct (Z.leb_spec (2 ^ (8 * Z.of_nat k)) n); [lia|]. reflexivity.
Qed.

Lemma to_bytes_overflow n k :
  2 ^ (8 * Z.of_nat k) <= n -> to_bytes n k = inl OverflowError.
Proof.
  intros H. unfold to_bytes.
  destruct (Z.leb_spec (2 ^ (8 * Z.of_nat k)) n); [|lia].
  now rewrite orb_true_r.
Qed.

Lemma be_digits_1 n : 0 <= n <= 255 -> be_digits 1 n = [n].
Proof.
  intros H. simpl. f_equal. change 255 with (Z.ones 8).
  rewrite Z.land_ones by lia. apply Z.mod_small. lia.
Qed.

Lemma sum_len_nonneg {A} (f : A -> pystr) l : 0 <= sum_len f l.
Proof.
  induction l as [|x l IH]; simpl; [lia|]. pose proof (len_nonneg (f x)). lia.
Qed.

Lemma valid_topic_len t : valid_topic t = true -> len t <= 65535.
Proof.
  intros H. apply valid_topic_inv in H as (_ & enc & He & Hl).
  apply Z.ltb_ge in Hl. pose proof (len_le_encoded t enc He).
  unfold MQTT_TOPIC_LENGTH_LIMIT in Hl. lia.
Qed.

Lemma check_sub_qos_run q m : 0 <= q <= 2 -> check_sub_qos q m = (Ok tt, m).
Proof.
  intros H. unfold check_sub_qos.
  destruct (Z.ltb_spec q 0); [lia|]. destruct (Z.ltb_spec 2 q); [lia|].
  reflexivity.
Qed.

(** The first half of [subscribe] on requests it accepts: it hands the list
    to the second half and changes nothing. *)
Lemma subscribe_checks topic qos topics m :
  connected m ->
  sub_topics topic qos = Some topics ->
  Forall valid_request topics ->
  subscribe topic qos m = subscribe_request topics m.
Proof.
  intros Hc Ht Hv. unfold subscribe.
  eapply run_bind; [now apply is_connected_run|]. cbv beta.
  destruct topic as [t|t q|l|]; simpl in Ht; try discriminate;
    injection Ht as <-.
  - inversion Hv as [|x xs [Hvt Hq] _]; subst. simpl in *.
    eapply run_bind; [apply ret_run|]. cbv beta. simpl.
    eapply run_bind.
    { eapply run_bind; [now apply check_topic_run|]. cbv beta.
      eapply run_bind; [now apply check_sub_qos_run|]. apply ret_run. }
    reflexivity.
  - inversion Hv as [|x xs [Hvt Hq] _]; subst. simpl in *.
    eapply run_bind.
    { eapply run_bind; [now apply check_topic_run|]. apply ret_run. }
    cbv beta. simpl.
    eapply run_bind.
    { eapply run_bind; [now apply check_topic_run|]. cbv beta.
      eapply run_bind; [now apply check_sub_qos_run|]. apply ret_run. }
    reflexivity.
  - eapply run_bind; [apply ret_run|]. cbv beta. simpl.
    assert (Hall : for_each l (fun tq => check_sub_qos (snd tq)
                                     >> _check_topic (Some (fst tq))) m
                   = (Ok tt, m)).
    { induction Hv as [|[t q] l' [Hvt Hq] _ IH]; simpl; [reflexivity|].
      eapply run_bind; [|exact IH].
      eapply run_bind; [now apply check_sub_qos_run|]. now apply check_topic_run. }
    eapply run_bind.
    { eapply run_bind; [exact Hall|]. apply ret_run. }
    reflexivity.
Qed.

Lemma sub_payload_ok topics :
  Forall valid_request topics -> exists payload, sub_payload topics = inr payload.
Proof.
  induction 1 as [|[t q] l [Hvt Hq] _ [payload IH]]; simpl.
  - now exists [].
  - simpl in *. pose proof (valid_topic_len t Hvt). pose proof (len_nonneg t).
    rewrite to_bytes_run by (simpl; lia).
    rewrite to_bytes_run by (simpl; lia).
    apply valid_topic_inv in Hvt as (_ & enc & -> & _).
    rewrite IH. eauto.
Qed.

(** The second half of [subscribe]. Above 255 the length does not fit the
    one byte [to_bytes(1, 'big')] gives it: OverflowError, with the client
    untouched. Otherwise the packet written is the fixed header, the length
    as that one byte, the packet id and the requests. *)
Lemma subscribe_request_overflow topics m :
  255 < subscribe_length topics ->
  subscribe_request topics m = (Raise OverflowError, m).
Proof.
  intros H. unfold subscribe_request. apply run_bind_raise.
  rewrite to_bytes_overflow by (simpl; lia). reflexivity.
Qed.

Lemma subscribe_request_sends topics payload m :
  _sock (self m) = true ->
  subscribe_length topics <= 255 ->
  0 <= _pid (self m) + 11 <= 65535 ->
  sub_payload topics = inr payload ->
  let packet := [0x82; subscribe_length topics]
                ++ be_digits 2 (_pid (self m) + 11) ++ payload in
  subscribe_request topics m
  = forever (suback_turn packet topics)
      (emit (SockWrite packet)
         (set_self (set_pid (_pid (self m) + 11) (self m)) m)).
Proof.
  intros Hs Hl Hpid Hpay packet. unfold subscribe_request.
  assert (0 <= subscribe_length topics).
  { unfold subscribe_length. pose proof (sum_len_nonneg fst topics).
    pose proof (len_nonneg topics). lia. }
  eapply run_bind; [apply lift_run, to_bytes_run; simpl; lia|]. cbv beta.
  eapply run_bind; [apply modify_self_run|]. cbv beta.
  eapply run_bind; [apply get_self_run|]. cbv beta.
  eapply run_bind; [apply lift_run, to_bytes_run; simpl; lia|]. cbv beta.
  eapply run_bind; [apply lift_run; exact Hpay|]. cbv beta.
  rewrite be_digits_1 by lia.
  eapply run_bind; [now apply sock_write_run|]. cbv beta.
  reflexivity.
Qed.

Lemma unsub_payload_ok topics :
  Forall (fun t => valid_topic t = true) topics ->
  exists payload, unsub_payload topics = inr payload.
Proof.
  induction 1 as [|t l Hvt _ [payload IH]]; simpl.
  - now exists [].
  - pose proof (valid_topic_len t Hvt). pose proof (len_nonneg t).
    rewrite to_bytes_run by (simpl; lia).
    apply valid_topic_inv in Hvt as (_ & enc & -> & _).
    rewrite IH. eauto.
Qed.

Lemma unsubscribe_checks topic topics m :
  unsub_topics topic = Some topics ->
  Forall (fun t => valid_topic t = true) topics ->
  unsubscribe topic m = unsubscribe_request topics m.
Proof.
  intros Ht Hv. unfold unsubscribe.
  destruct topic as [t|l|]; simpl in Ht; try discriminate; injection Ht as <-.
  - inversion Hv; subst.
    eapply run_bind.
    { eapply run_bind; [now apply check_topic_run|]. apply ret_run. }
    reflexivity.
  - assert (Hall : for_each l (fun t => _check_topic (Some t)) m = (Ok tt, m)).
    { induction Hv as [|t l' Hvt _ IH]; simpl; [reflexivity|].
      eapply run_bind; [now apply check_topic_run|]. exact IH. }
    eapply run_bind.
    { eapply run_bind; [exact Hall|]. apply ret_run. }
    reflexivity.
Qed.

Lemma unsubscribe_membership topics m :
  Forall (fun t => str_in t (_subscribed_topics (self m)) = true) topics ->
  for_each topics (fun t =>
    let* c := get_self in
    if negb (str_in t (_subscribed_topics c)) then
      raise (MMQTTException
               "Topic must be subscribed to before attempting to unsubscribe.")
    else ret tt) m = (Ok tt, m).
Proof.
  induction 1 as [|t l Ht _ IH]; simpl; [reflexivity|].
  eapply run_bind; [|exact IH].
  eapply run_bind; [apply get_self_run|]. cbv beta. now rewrite Ht.
Qed.

Lemma unsubscribe_request_overflow topics m :
  Forall (fun t => str_in t (_subscribed_topics (self m)) = true) topics ->
  255 < unsubscribe_length topics ->
  unsubscribe_request topics m = (Raise OverflowError, m).
Proof.
  intros Hin H. unfold unsubscribe_request.
  eapply run_bind; [now apply unsubscribe_membership|]. cbv beta.
  apply run_bind_raise.
  rewrite to_bytes_overflow by (simpl; lia). reflexivity.
Qed.

Lemma unsubscribe_request_sends topics payload m :
  _sock (self m) = true ->
  Forall (fun t => str_in t (_subscribed_topics (self m)) = true) topics ->
  unsubscribe_length topics <= 255 ->
  0 <= _pid (self m) + 11 <= 65535 ->
  unsub_payload topics = inr payload ->
  let pib := be_digits 2 (_pid (self m) + 11) in
  let packet := [0xA2; unsubscribe_length topics] ++ pib ++ payload in
  unsubscribe_request topics m
  = forever (unsuback_turn pib topics)
      (emit (SockWrite packet)
         (set_self (set_pid (_pid (self m) + 11) (self m)) m)).
Proof.
  intros Hs Hin Hl Hpid Hpay pib packet. unfold unsubscribe_request.
  assert (0 <= unsubscribe_length topics).
  { unfold unsubscribe_length. pose proof (sum_len_nonneg (fun t => t) topics).
    pose proof (len_nonneg topics). lia. }
  eapply run_bind; [now apply unsubscribe_membership|]. cbv beta.
  eapply run_bind; [apply lift_run, to_bytes_run; simpl; lia|]. cbv beta.
  eapply run_bind; [apply modify_self_run|]. cbv beta.
  eapply run_bind; [apply get_self_run|]. cbv beta.
  eapply run_bind; [apply lift_run, to_bytes_run; simpl; lia|]. cbv beta.
  eapply run_bind; [apply lift_run; exact Hpay|]. cbv beta.
  rewrite be_digits_1 by lia.
  eapply run_bind; [now apply sock_write_run|]. cbv beta.
  reflexivity.
Qed.

(** C10. On a connected client, for requests that pass the checks of
    [subscribe] (of [unsubscribe]: topics that pass and are subscribed): a
    remaining length above 255 ends the call in OverflowError with nothing
    sent and the client untouched; otherwise the packet that is written
    carries the remaining length as the single byte after the fixed header,
    followed at once by the packet id, whatever the length is. *)
Theorem subscribe_unsubscribe_length_byte (m : machine) :
  connected m ->
  (forall topic qos topics,
     sub_topics topic qos = Some topics ->
     Forall valid_request topics ->
     (255 < subscribe_length topics ->
        subscribe topic qos m = (Raise OverflowError, m))
     /\ (subscribe_length topics <= 255 ->
         0 <= _pid (self m) + 11 <= 65535 ->
         exists payload more,
           sub_payload topics = inr payload
           /\ trace (snd (subscribe topic qos m))
              = trace m
                ++ SockWrite ([0x82; subscribe_length topics]
                              ++ be_digits 2 (_pid (self m) + 11) ++ payload)
                   :: more))
  /\ (forall topic topics,
        unsub_topics topic = Some topics ->
        Forall (fun t => valid_topic t = true) topics ->
        Forall (fun t => str_in t (_subscribed_topics (self m)) = true) topics ->
        (255 < unsubscribe_length topics ->
           unsubscribe topic m = (Raise OverflowError, m))
        /\ (unsubscribe_length topics <= 255 ->
            0 <= _pid (self m) + 11 <= 65535 ->
            exists payload more,
              unsub_payload topics = inr payload
              /\ trace (snd (unsubscribe topic m))
                 = trace m
                   ++ SockWrite ([0xA2; unsubscribe_length topics]
                                 ++ be_digits 2 (_pid (self m) + 11) ++ payload)
                      :: more)).
Proof.
  intros Hc. pose proof Hc as [Hs _]. split.
  - intros topic qos topics Ht Hv.
    rewrite (subscribe_checks topic qos topics m Hc Ht Hv). split.
    + apply subscribe_request_overflow.
    + intros Hl Hpid. destruct (sub_payload_ok topics Hv) as [payload Hpay].
      rewrite (subscribe_request_sends topics payload m Hs Hl Hpid Hpay).
      match goal with
      | |- context [forever ?body ?m1] =>
          destruct (keeps_forever trace_grows body
                      (grows_suback_turn _ _) m1) as [more Hmore]
      end.
      exists payload, more. split; [exact Hpay|].
      rewrite Hmore. simpl. now rewrite <- app_assoc.
  - intros topic topics Ht Hv Hin.
    rewrite (unsubscribe_checks topic topics m Ht Hv). split.
    + now apply unsubscribe_request_overflow.
    + intros Hl Hpid. destruct (unsub_payload_ok topics Hv) as [payload Hpay].
      rewrite (unsubscribe_request_sends topics payload m Hs Hin Hl Hpid Hpay).
      match goal with
      | |- context [forever ?body ?m1] =>
          destruct (keeps_forever trace_grows body
                      (grows_unsuback_turn _ _) m1) as [more Hmore]
      end.
      exists payload, more. split; [exact Hpay|].
      rewrite Hmore. simpl. now rewrite <- app_assoc.
Qed.

(** A client subscribed to a topic of 300 characters: subscribing to it or
    unsubscribing from it overflows the length byte; subscribing to a topic
    of 195 characters has remaining length 200, sent as the one byte 200. *)
Lemma subscribe_unsubscribe_length_byte_witness :
  connected (subscribed [repeat 97 300] []) /\
  255 < subscribe_length [(repeat 97 300, 0)] /\
  subscribe (SubStr (repeat 97 300)) 0 (subscribed [repeat 97 300] [])
    = (Raise OverflowError, subscribed [repeat 97 300] []) /\
  255 < unsubscribe_length [repeat 97 300] /\
  unsubscribe (UnsubStr (repeat 97 300)) (subscribed [repeat 97 300] [])
    = (Raise OverflowError, subscribed [repeat 97 300] []) /\
  subscribe_length [(repeat 97 195, 1)] = 200 /\
  exists payload more,
    sub_payload [(repeat 97 195, 1)] = inr payload
    /\ trace (snd (subscribe (SubTuple (repeat 97 195) 1) 0
                     (subscribed [repeat 97 300] [])))
       = trace (subscribed [repeat 97 300] [])
         ++ SockWrite ([0x82; subscribe_length [(repeat 97 195, 1)]]
                       ++ be_digits 2 (_pid (self (subscribed [repeat 97 300] [])) + 11)
                       ++ payload)
            :: more.
Proof.
  destruct (subscribe_unsubscribe_length_byte (subscribed [repeat 97 300] []))
    as [Hsub Hunsub]; [split; reflexivity|].
  split; [split; reflexivity|]. split; [reflexivity|]. split.
  { apply (Hsub (SubStr (repeat 97 300)) 0 [(repeat 97 300, 0)]);
      [reflexivity | | reflexivity].
    constructor; [|constructor]. split; [reflexivity|]. simpl. lia. }
  split; [reflexivity|]. split.
  { apply (Hunsub (UnsubStr (repeat 97 300)) [repeat 97 300]);
      [reflexivity | | | reflexivity];
      (constructor; [reflexivity|constructor]). }
  split; [reflexivity|].
  apply (Hsub (SubTuple (repeat 97 195) 1) 0 [(repeat 97 195, 1)]);
    [reflexivity | | apply Z.leb_le; reflexivity
    | split; apply Z.leb_le; reflexivity].
  constructor; [|constructor]. split; [reflexivity|]. simpl. lia.
Defined.

(** ** The answer to SUBSCRIBE *)

(** The loop body of [subscribe] on a SUBACK: four bytes are read after the
    opcode, whatever the number of topics, and the fourth one, the first
    granted-QoS byte of the payload, is what every call of [on_subscribe]
    gets. *)
Lemma suback_topics_run g topics : forall m,
  on_subscribe (self m) = true ->
  for_each topics (fun t : pystr * Z =>
    callback on_subscribe (OnSubscribe g) >>
    modify_self (fun c =>
      set_subscribed_topics (_subscribed_topics c ++ [fst t]) c)) m
  = (Ok tt,
     {| self := set_subscribed_topics
                  (_subscribed_topics (self m) ++ map fst topics) (self m);
        glob := glob m; inbound := inbound m; link := link m;
        trace := trace m ++ repeat (OnSubscribe g) (length topics) |}).
Proof.
  induction topics as [|t topics IH]; intros m Hcb.
  - simpl. rewrite !app_nil_r. now destruct m as [[] ? ? ? ?].
  - simpl. eapply run_bind.
    { eapply run_bind; [apply callback_run|]. apply modify_self_run. }
    rewrite IH by (simpl; now rewrite Hcb).
    rewrite Hcb. simpl. now rewrite <- !app_assoc.
Qed.

Lemma suback_turn_run packet topics m len_byte hi lo g rest :
  _sock (self m) = true -> on_subscribe (self m) = true ->
  packet !! 2%nat = Some hi -> packet !! 3%nat = Some lo ->
  inbound m = 0x90 :: len_byte :: hi :: lo :: g :: rest ->
  g <> 0x80 ->
  suback_turn packet topics m
  = (Ok (Some tt),
     {| self := set_subscribed_topics
                  (_subscribed_topics (self m) ++ map fst topics) (self m);
        glob := glob m; inbound := rest; link := link m;
        trace := trace m ++ repeat (OnSubscribe g) (length topics) |}).
Proof.
  intros Hs Hcb H2 H3 Hi Hg. unfold suback_turn.
  eapply run_bind.
  { apply (wait_for_msg_opcode 0x90 (len_byte :: hi :: lo :: g :: rest));
      [exact Hs | exact Hi | reflexivity]. }
  cbv beta. simpl opt_is. cbv iota.
  eapply run_bind; [now apply sock_read_run|]. cbv beta. simpl.
  eapply run_bind; [reflexivity|]. cbv beta.
  eapply run_bind; [apply lift_run; unfold getitem; now rewrite H2|]. cbv beta.
  rewrite Z.eqb_refl.
  eapply run_bind.
  { eapply run_bind; [reflexivity|]. cbv beta.
    eapply run_bind; [apply lift_run; unfold getitem; now rewrite H3|]. cbv beta.
    rewrite Z.eqb_refl. reflexivity. }
  cbv beta. eapply run_bind; [reflexivity|]. cbv beta.
  destruct (Z.eqb_spec g 0x80); [contradiction|].
  eapply run_bind; [now apply suback_topics_run|]. reflexivity.
Qed.

(** C2. [subscribe([("x/y", 0), ("x/z", 1)])] on a fresh connected client,
    answered by the SUBACK [90 04 00 0b 00 01] that grants 0 and 1: one
    SUBSCRIBE packet with both topics and packet id 11 goes out, both topics
    are appended to the subscriptions, and [on_subscribe] is called twice,
    both times with 0; the byte that grants 1 is left unread. *)
Theorem subscribe_two_topics_granted_bytes :
  fst (subscribe (SubList [([120; 47; 121], 0); ([120; 47; 122], 1)]) 0
         (online [0x90; 4; 0; 11; 0; 1]))
    = Ok tt
  /\ trace (snd (subscribe (SubList [([120; 47; 121], 0); ([120; 47; 122], 1)]) 0
                   (online [0x90; 4; 0; 11; 0; 1])))
     = [SockWrite [0x82; 14; 0; 11;
                   0; 3; 120; 47; 121; 0;
                   0; 3; 120; 47; 122; 1];
        OnSubscribe 0; OnSubscribe 0]
  /\ _subscribed_topics
       (self (snd (subscribe (SubList [([120; 47; 121], 0); ([120; 47; 122], 1)]) 0
                     (online [0x90; 4; 0; 11; 0; 1]))))
     = [[120; 47; 121]; [120; 47; 122]]
  /\ inbound (snd (subscribe (SubList [([120; 47; 121], 0); ([120; 47; 122], 1)]) 0
                     (online [0x90; 4; 0; 11; 0; 1])))
     = [1].
Proof. repeat split; reflexivity. Qed.

(** ** The bounds of the loops are never reached *)

Lemma total_ret {A} (a : A) : total (ret a).
Proof. intros m. discriminate. Qed.

Lemma total_raise {A} (e : exn) : total (@raise A e).
Proof. intros m. discriminate. Qed.

Lemma total_bind {A B} (c : M A) (k : A -> M B) :
  total c -> (forall a, total (k a)) -> total (bind c k).
Proof.
  intros Hc Hk m. unfold bind. specialize (Hc m).
  destruct (c m) as [[a|e| | ] m1]; simpl in *; try discriminate.
  - apply Hk.
  - contradiction.
Qed.

Lemma total_lift {A} (r : res A) : total (lift r).
Proof. destruct r; [apply total_raise | apply total_ret]. Qed.

Lemma total_assert b : total (assert b).
Proof. destruct b; [apply total_ret | apply total_raise]. Qed.

Lemma total_state {A} (f : machine -> A * machine) :
  total (fun m => (Ok (fst (f m)), snd (f m))).
Proof. intros m. discriminate. Qed.

Lemma total_for_each {A} (l : list A) (body : A -> M unit) :
  (forall x, total (body x)) -> total (for_each l body).
Proof.
  intros Hb. induction l as [|x l IH]; simpl.
  - apply total_ret.
  - apply total_bind; [apply Hb | intros _; exact IH].
Qed.

Ltac total_step :=
  lazymatch goal with
  | |- total (bind _ _) => apply total_bind; [| intros ?]
  | |- total (ret _) => apply total_ret
  | |- total (raise _) => apply total_raise
  | |- total (lift _) => apply total_lift
  | |- total (assert _) => apply total_assert
  | |- total (for_each _ _) => apply total_for_each; intros ?
  | |- total get_self => intros ?; discriminate
  | |- total get_glob => intros ?; discriminate
  | |- total (put_glob _) => intros ?; discriminate
  | |- total (modify_self _) => intros ?; discriminate
  | |- total (act _) => intros ?; discriminate
  | |- total (when ?b _) => destruct b; simpl
  | |- total (if ?b then _ else _) => destruct b
  | |- total (match ?x with _ => _ end) => destruct x
  end.

Create HintDb total.
Ltac total_auto := repeat first [total_step | solve [auto with total]].

Lemma total_the_sock : total the_sock.
Proof. unfold the_sock. total_auto. Qed.
#[local] Hint Resolve total_the_sock : total.

Lemma total_sock_read n : total (sock_read n).
Proof. unfold sock_read. total_auto. intros m. discriminate. Qed.

Lemma total_sock_write bs : total (sock_write bs).
Proof. unfold sock_write. total_auto. Qed.

Lemma total_sock_connect mode : total (sock_connect mode).
Proof.
  unfold sock_connect. total_auto. intros m.
  destruct (link m) as [[]|]; discriminate.
Qed.

Lemma total_callback slot a : total (callback slot a).
Proof. unfold callback. total_auto. Qed.

Lemma total_buf_store b i v : total (buf_store b i v).
Proof. unfold buf_store. total_auto. Qed.

Lemma total_buf_or b i v : total (buf_or b i v).
Proof. unfold buf_or, buf_load. total_auto. apply total_buf_store. Qed.

Lemma total_buf_contents b : total (buf_contents b).
Proof. unfold buf_contents. total_auto. Qed.

#[local] Hint Resolve total_sock_read total_sock_write total_sock_connect
  total_callback total_buf_store total_buf_or total_buf_contents : total.

Lemma total_sock_settimeout : total sock_settimeout.
Proof. apply total_the_sock. Qed.

Lemma total_encode_remaining_length pkt sz :
  total (encode_remaining_length pkt sz).
Proof. intros m. apply encode_remaining_length_fuel. Qed.

Lemma total_is_connected : total is_connected.
Proof. unfold is_connected. total_auto. Qed.

Lemma total_check_topic t : total (_check_topic t).
Proof. unfold _check_topic. total_auto. Qed.

Lemma total_send_str s : total (_send_str s).
Proof. unfold _send_str. total_auto. Qed.

#[local] Hint Resolve total_sock_settimeout total_encode_remaining_length
  total_is_connected total_check_topic total_send_str : total.

Lemma sock_read_no_sock n m :
  _sock (self m) = false -> sock_read n m = (Raise AttributeError, m).
Proof.
  intros Hs. unfold sock_read. apply run_bind_raise.
  unfold the_sock. eapply run_bind; [apply get_self_run|]. cbv beta.
  now rewrite Hs.
Qed.

Lemma recv_len_loop_total fuel n sh m :
  (length (inbound m) <= fuel)%nat ->
  fst (_recv_len_loop fuel n sh m) <> OutOfFuel.
Proof.
  intros Hf. destruct (_sock (self m)) eqn:Hs.
  - rewrite (recv_len_loop_run (inbound m) fuel n sh m Hs eq_refl Hf).
    destruct (decode_len (inbound m) n sh) as [[v rest]|]; discriminate.
  - assert (E : _recv_len_loop fuel n sh m = (Raise AttributeError, m)).
    { destruct fuel; simpl; apply run_bind_raise; now apply sock_read_no_sock. }
    rewrite E. discriminate.
Qed.

Lemma total_recv_len : total _recv_len.
Proof. intros m. unfold _recv_len. now apply recv_len_loop_total. Qed.
#[local] Hint Resolve total_recv_len : total.

Lemma total_wait_for_msg : total wait_for_msg.
Proof. unfold wait_for_msg. total_auto. Qed.
#[local] Hint Resolve total_wait_for_msg : total.

Lemma total_puback_turn pid : total (puback_turn pid).
Proof. unfold puback_turn. total_auto. Qed.

Lemma total_suback_turn packet topics : total (suback_turn packet topics).
Proof. unfold suback_turn. total_auto. Qed.

Lemma total_unsuback_turn pib topics : total (unsuback_turn pib topics).
Proof. unfold unsuback_turn. total_auto. Qed.

#[local] Instance shrinks_preorder : PreOrder shrinks.
Proof.
  split.
  - intros m. unfold shrinks. lia.
  - intros a b c. unfold shrinks. lia.
Qed.

Lemma shrinks_modify_self f : keeps shrinks (modify_self f).
Proof. intros m. unfold shrinks. simpl. lia. Qed.

Lemma shrinks_put_glob g : keeps shrinks (put_glob g).
Proof. intros m. unfold shrinks. simpl. lia. Qed.

Lemma shrinks_act a : keeps shrinks (act a).
Proof. intros m. unfold shrinks. simpl. lia. Qed.

Lemma shrinks_sock_read n : keeps shrinks (sock_read n).
Proof.
  unfold sock_read. keeps_step; [keeps_step|].
  intros m. unfold shrinks. simpl. rewrite length_drop. lia.
Qed.

#[local] Hint Resolve shrinks_modify_self shrinks_put_glob shrinks_act
  shrinks_sock_read : keeps.

Lemma shrinks_callback slot a : keeps shrinks (callback slot a).
Proof. unfold callback. keeps_auto. Qed.

Lemma shrinks_sock_write bs : keeps shrinks (sock_write bs).
Proof. unfold sock_write. keeps_auto. Qed.

#[local] Hint Resolve shrinks_callback shrinks_sock_write : keeps.

Lemma shrinks_recv_len_loop fuel n sh : keeps shrinks (_recv_len_loop fuel n sh).
Proof.
  revert n sh. induction fuel as [|f IH]; intros n sh; simpl; keeps_auto.
  intros m. reflexivity.
Qed.

Lemma shrinks_recv_len : keeps shrinks _recv_len.
Proof. intros m. unfold _recv_len. apply shrinks_recv_len_loop. Qed.
#[local] Hint Resolve shrinks_recv_len : keeps.

(** A poll that returns with input at hand has consumed some of it. *)
Lemma wait_for_msg_consumes m op m' :
  wait_for_msg m = (Ok op, m') -> inbound m <> [] ->
  (length (inbound m') < length (inbound m))%nat.
Proof.
  intros H Hne. unfold wait_for_msg in H.
  apply bind_inv_Ok in H as ([] & m0 & H0 & H).
  assert (Hs : _sock (self m) = true).
  { pose proof H0 as H0'.
    unfold sock_settimeout, the_sock, bind, get_self in H0'. simpl in H0'.
    destruct (_sock (self m)); [reflexivity|discriminate]. }
  unfold sock_settimeout in H0.
  rewrite (the_sock_run m Hs) in H0. injection H0 as <-.
  apply bind_inv_Ok in H as (r & m1 & H1 & H).
  rewrite (sock_read_run 1 m Hs) in H1. injection H1 as <- <-.
  destruct (inbound m) as [|b rest] eqn:Hi; [contradiction|].
  simpl in H.
  match type of H with
  | ?k ?m1 = _ =>
      assert (Hk : keeps shrinks k) by keeps_auto; specialize (Hk m1)
  end.
  rewrite H in Hk. unfold shrinks in Hk. simpl in Hk.
  rewrite drop_0 in Hk. simpl. lia.
Qed.

(** A loop whose turns start with the poll ends within the bound [forever]
    gives it. *)
Lemma while_1_total {A} (k : option Z -> M (option A)) :
  (forall op, total (k op)) -> (forall op, keeps shrinks (k op)) ->
  forall fuel m, (length (inbound m) <= fuel)%nat ->
  fst (while_1 fuel (bind wait_for_msg k) m) <> OutOfFuel.
Proof.
  intros Ht Hk. induction fuel as [|f IH]; intros m Hf.
  - simpl. pose proof (total_bind wait_for_msg k total_wait_for_msg Ht m) as Hb.
    destruct (bind wait_for_msg k m) as [[[a|]|e| | ] m1]; simpl in *;
      try discriminate; [|contradiction].
    destruct (inbound m); [discriminate|simpl in Hf; lia].
  - simpl. pose proof (total_bind wait_for_msg k total_wait_for_msg Ht m) as Hb.
    destruct (bind wait_for_msg k m) as [[[a|]|e| | ] m1] eqn:E; simpl in *;
      try discriminate; [|contradiction].
    destruct (inbound m) as [|b r] eqn:Hi; [discriminate|].
    apply IH.
    apply bind_inv_Ok in E as (op & m0 & Hw & Hk0).
    apply wait_for_msg_consumes in Hw; [|rewrite Hi; discriminate].
    specialize (Hk op m0). rewrite Hk0 in Hk. unfold shrinks in Hk.
    simpl in Hk. rewrite Hi in Hw. simpl in Hw, Hf. lia.
Qed.

Lemma total_forever_puback pid : total (forever (puback_turn pid)).
Proof.
  intros m. unfold forever, puback_turn.
  apply while_1_total; [| |lia]; intros op; [total_auto | keeps_auto].
Qed.

Lemma total_forever_suback packet topics :
  total (forever (suback_turn packet topics)).
Proof.
  intros m. unfold forever, suback_turn.
  apply while_1_total; [| |lia]; intros op; [total_auto | keeps_auto].
Qed.

Lemma total_forever_unsuback pib topics :
  total (forever (unsuback_turn pib topics)).
Proof.
  intros m. unfold forever, unsuback_turn.
  apply while_1_total; [| |lia]; intros op; [total_auto | keeps_auto].
Qed.

#[local] Hint Resolve total_forever_puback total_forever_suback
  total_forever_unsuback : total.

(** No call of a method ends because a bound of the model ran out. *)
Lemma total_publish topic msg retain qos : total (publish topic msg retain qos).
Proof. unfold publish. total_auto. Qed.

Lemma total_subscribe topic qos : total (subscribe topic qos).
Proof. unfold subscribe, subscribe_request, check_sub_qos. total_auto. Qed.

Lemma total_unsubscribe topic : total (unsubscribe topic).
Proof. unfold unsubscribe, unsubscribe_request. total_auto. Qed.

Lemma total_connect cs : total (connect cs).
Proof. unfold connect, connect_send, connect_recv. total_auto. Qed.

(** ** Room for the remaining length *)

Lemma cont_byte_is_byte sz :
  is_byte (Z.lor (Z.land sz 0x7f) 0x80) = true.
Proof.
  apply lor_is_byte; [|reflexivity].
  unfold is_byte. change 0x7f with (Z.ones 7).
  rewrite Z.land_ones by lia.
  pose proof (Z.mod_pos_bound sz (2 ^ 7)).
  apply andb_true_iff. split; apply Z.leb_le; lia.
Qed.

Lemma buf_get_stored b v g m :
  buf_get b (glob (set_glob (buf_set b v g) m)) = v.
Proof. now destruct b. Qed.

(** The loop completes when the buffer has a byte for every seven bits of
    the length: with [d + 1] bytes from index [i] on, every length below
    [128 ^ (d + 1)] is stored. *)
Lemma length_loop_completes pkt d : forall fuel sz i m,
  0 <= sz < 2 ^ (7 * Z.of_nat (S d)) ->
  (i + d < length (buf_get pkt (glob m)))%nat ->
  Z.log2 sz < Z.of_nat fuel + 7 ->
  exists k m', length_loop fuel pkt sz i m = (Ok k, m').
Proof.
  induction d as [|d IH]; intros fuel sz i m Hsz Hroom Hfuel.
  - assert (E : length_loop fuel pkt sz i m = (buf_store pkt i sz >> ret i) m).
    { change (2 ^ (7 * Z.of_nat 1)) with 128 in Hsz.
      destruct fuel; simpl; destruct (Z.ltb_spec 0x7f sz); try lia; reflexivity. }
    rewrite E. eexists _, _. eapply run_bind; [|reflexivity].
    apply buf_store_run; [lia|].
    change (2 ^ (7 * Z.of_nat 1)) with 128 in Hsz.
    unfold is_byte. apply andb_true_iff. split; apply Z.leb_le; lia.
  - destruct (Z.ltb_spec 0x7f sz) as [Hbig|Hsmall].
    + destruct fuel as [|f].
      { assert (7 <= Z.log2 sz) by (apply Z.log2_le_pow2; lia). lia. }
      simpl. destruct (Z.ltb_spec 0x7f sz); [|lia].
      pose proof (buf_store_run pkt i (Z.lor (Z.land sz 0x7f) 0x80) m) as Hst.
      specialize (Hst ltac:(lia) (cont_byte_is_byte sz)).
      destruct (IH f (Z.shiftr sz 7) (S i)
                  (set_glob (buf_set pkt
                     (<[i := Z.lor (Z.land sz 0x7f) 0x80]> (buf_get pkt (glob m)))
                     (glob m)) m)) as (k & m' & Hrun).
      * rewrite Z.shiftr_div_pow2 by lia. split.
        -- apply Z.div_pos; lia.
        -- apply Z.div_lt_upper_bound; [lia|].
           rewrite <- Z.pow_add_r by lia.
           replace (7 + 7 * Z.of_nat (S d)) with (7 * Z.of_nat (S (S d))) by lia.
           lia.
      * rewrite buf_get_stored. unfold bytes. rewrite length_insert. lia.
      * rewrite Z.log2_shiftr by lia. lia.
      * exists k, m'. eapply run_bind; [exact Hst|exact Hrun].
    + assert (E : length_loop fuel pkt sz i m = (buf_store pkt i sz >> ret i) m).
      { destruct fuel; simpl; destruct (Z.ltb_spec 0x7f sz); try lia; reflexivity. }
      rewrite E. eexists _, _. eapply run_bind; [|reflexivity].
      apply buf_store_run; [lia|].
      unfold is_byte. apply andb_true_iff. split; apply Z.leb_le; lia.
Qed.

(** In a buffer of five bytes or more the encoder completes on every
    length up to 268435455; in the two bytes of [MQTT_PUB] up to 127, in the
    three bytes of [MQTT_CON] up to 16383. *)
Lemma encode_completes pkt d sz m :
  0 <= sz < 2 ^ (7 * Z.of_nat (S d)) ->
  (1 + d < length (buf_get pkt (glob m)))%nat ->
  exists k m', encode_remaining_length pkt sz m = (Ok k, m').
Proof.
  intros Hsz Hroom. unfold encode_remaining_length.
  apply (length_loop_completes pkt d); trivial.
  pose proof (Z.log2_nonneg sz). rewrite Z2Nat.id; lia.
Qed.
